(** * Patent Similarity Finder: a shallow embedding of [patent_app.py]

    The development follows the layout of the application:

    - [PyStr]   : the Python string methods the code calls
                  ([str.lower], [str.strip], [str.split], truthiness);
    - [PyDict]  : insertion-ordered dictionaries with string keys;
    - [PyJson]  : [json.dumps(obj, indent=2)] and [json.loads];
    - [Matcher] : [compare_features], parametrised by the fuzzy scorer
                  [fuzz.partial_ratio] of the external fuzzywuzzy package;
    - [App]     : [get_patent_results], [scrape_patent_details],
                  [search_best_matching_patents] and the code run on
                  submission, as computations that log what they do to
                  the search provider, the web and the page.

    The modules [PyStrFacts], [PyDictFacts], [MatcherFacts], [AppFacts],
    [PyJsonFacts] and [ExportFacts] hold the properties.

    Python strings are modelled by [string]; a character is a code point
    below 256, which is the range on which [str.lower], [str.strip] and
    the JSON escapes are given here exactly as CPython computes them.
    Python integers are modelled by [Z].  The search provider and the web
    are parameters: an answer is a value or an exception, and may depend
    on everything that happened before. *)

From Stdlib Require Import ZArith List Bool Ascii String NArith Lia.
From Stdlib Require Import DecimalString DecimalZ.
Import ListNotations.

Local Open Scope list_scope.
Local Open Scope string_scope.

(* ------------------------------------------------------------------ *)
(** ** Python string methods *)

Module PyStr.

(** [bool(s)] for a string: only the empty string is falsy. *)
Definition truthy (s : string) : bool :=
  match s with
  | EmptyString => false
  | String _ _ => true
  end.

(** Code points with an upper-case form below 256: [A-Z], and the
    Latin-1 capitals U+00C0..U+00DE except the multiplication sign
    U+00D7.  Their lower-case form is 32 above. *)
Definition is_upper (c : ascii) : bool :=
  let n := N_of_ascii c in
  ((65 <=? n) && (n <=? 90) ||
   (192 <=? n) && (n <=? 222) && negb (n =? 215))%N.

Definition lower_char (c : ascii) : ascii :=
  if is_upper c then ascii_of_N (N_of_ascii c + 32) else c.

(** [s.lower()] *)
Fixpoint lower (s : string) : string :=
  match s with
  | EmptyString => EmptyString
  | String c s' => String (lower_char c) (lower s')
  end.

(** The inverse direction on the same code points, used to build case
    variants of a text. *)
Definition is_lower_of_upper (c : ascii) : bool :=
  let n := N_of_ascii c in
  ((97 <=? n) && (n <=? 122) ||
   (224 <=? n) && (n <=? 254) && negb (n =? 247))%N.

Definition upper_char (c : ascii) : ascii :=
  if is_lower_of_upper c then ascii_of_N (N_of_ascii c - 32) else c.

Fixpoint to_upper (s : string) : string :=
  match s with
  | EmptyString => EmptyString
  | String c s' => String (upper_char c) (to_upper s')
  end.

(** Two characters are the same letter when they are equal or one is the
    lower-case form of the other. *)
Definition same_letter (c d : ascii) : bool :=
  Ascii.eqb c d || Ascii.eqb (lower_char c) d || Ascii.eqb c (lower_char d).

(** Two strings are case variants of each other when they have the same
    length and, position by position, the same letters. *)
Fixpoint case_variantb (a b : string) : bool :=
  match a, b with
  | EmptyString, EmptyString => true
  | String c a', String d b' => same_letter c d && case_variantb a' b'
  | _, _ => false
  end.

Definition case_variant (a b : string) : Prop := case_variantb a b = true.



(** [c.isspace()] for code points below 256. *)
Definition is_space (c : ascii) : bool :=
  let n := N_of_ascii c in
  ((9 <=? n) && (n <=? 13) || (28 <=? n) && (n <=? 32) ||
   (n =? 133) || (n =? 160))%N.

Fixpoint lstrip (s : string) : string :=
  match s with
  | EmptyString => EmptyString
  | String c s' => if is_space c then lstrip s' else s
  end.

Fixpoint rstrip (s : string) : string :=
  match s with
  | EmptyString => EmptyString
  | String c s' =>
      match rstrip s' with
      | EmptyString => if is_space c then EmptyString else String c EmptyString
      | r => String c r
      end
  end.

(** [s.strip()] *)
Definition strip (s : string) : string := rstrip (lstrip s).

(** [s.split(sep)] for a non-empty separator: the text is scanned from
    the left, each occurrence of [sep] closes the current piece and the
    scan resumes after it.  [skip] counts the characters of a separator
    just recognised that are still to be passed over; [cur] is the piece
    being read. *)
Fixpoint split_go (sep : string) (skip : nat) (cur : string)
         (s : string) : list string :=
  match s with
  | EmptyString => [cur]
  | String c s' =>
      match skip with
      | S k => split_go sep k cur s'
      | O =>
          if prefix sep s
          then cur :: split_go sep (String.length sep - 1) EmptyString s'
          else split_go sep 0 (cur ++ String c EmptyString) s'
      end
  end.

Definition split (sep s : string) : list string :=
  split_go sep 0 EmptyString s.

(** No suffix of [cur] that is not empty starts an occurrence of the
    separator in the text [cur ++ s]: the invariant of [split_go]. *)
Fixpoint no_start (sep cur s : string) : bool :=
  match cur with
  | EmptyString => true
  | String c cur' => negb (prefix sep (cur ++ s)) && no_start sep cur' s
  end.

(** Does the text start with something else than white space?  The
    empty text does. *)
Definition head_not_space (s : string) : bool :=
  match s with
  | EmptyString => true
  | String c _ => negb (is_space c)
  end.

(** Is the text made of white space only? *)
Fixpoint all_space (s : string) : bool :=
  match s with
  | EmptyString => true
  | String c s' => is_space c && all_space s'
  end.

(** [needle in s] *)
Fixpoint contains (needle s : string) : bool :=
  prefix needle s ||
  match s with
  | EmptyString => false
  | String _ s' => contains needle s'
  end.

End PyStr.

(* ------------------------------------------------------------------ *)
(** ** Python dictionaries with string keys

    A [dict] keeps its keys in insertion order; assigning to a key that
    is present replaces the value and leaves the position unchanged. *)

Module PyDict.

Section Dict.
Context {V : Type}.

Definition dict := list (string * V).

Definition empty : dict := [].

(** [d[k] = v] *)
Fixpoint set (k : string) (v : V) (d : dict) : dict :=
  match d with
  | [] => [(k, v)]
  | (k', v') :: d' =>
      if String.eqb k k' then (k, v) :: d' else (k', v') :: set k v d'
  end.

(** [d.get(k)] *)
Fixpoint get (k : string) (d : dict) : option V :=
  match d with
  | [] => None
  | (k', v') :: d' => if String.eqb k k' then Some v' else get k d'
  end.

Definition keys (d : dict) : list string := map fst d.

(** [len(d)] *)
Definition len (d : dict) : Z := Z.of_nat (List.length d).

End Dict.

Arguments dict : clear implicits.

End PyDict.

(* ------------------------------------------------------------------ *)
(** ** JSON: [json.dumps(obj, indent=2)] and [json.loads]

    The Python values the export is made of.  Floats are not modelled. *)

Module PyJson.

#[local] Unset Elimination Schemes.

Inductive pyval : Type :=
| PNone
| PBool (b : bool)
| PInt (n : Z)
| PStr (s : string)
| PList (items : list pyval)
| PDict (items : list (string * pyval)).

#[local] Set Elimination Schemes.

Definition dquote : ascii := Eval cbv in ascii_of_nat 34.
Definition backslash : ascii := Eval cbv in ascii_of_nat 92.
Definition newline : ascii := Eval cbv in ascii_of_nat 10.

Definition char (c : ascii) : string := String c EmptyString.

(** [str(n)] for an integer. *)
Definition str_of_Z (n : Z) : string :=
  NilZero.string_of_int (Z.to_int n).

(** *** Encoder *)

(** One lower-case hexadecimal digit. *)
Definition hex_digit (n : N) : ascii :=
  if (n <? 10)%N then ascii_of_N (48 + n) else ascii_of_N (87 + n).

(** The replacement of one character inside a string literal, with
    [ensure_ascii=True]: the quote, the backslash and everything outside
    the printable range [' '..'~'] are escaped. *)
Definition escape_char (c : ascii) : string :=
  let n := N_of_ascii c in
  if (n =? 34)%N then String backslash (char dquote)
  else if (n =? 92)%N then String backslash (char backslash)
  else if (n =? 8)%N then String backslash "b"
  else if (n =? 12)%N then String backslash "f"
  else if (n =? 10)%N then String backslash "n"
  else if (n =? 13)%N then String backslash "r"
  else if (n =? 9)%N then String backslash "t"
  else if ((n <? 32) || (126 <? n))%N
       then String backslash
              (String "u" (String "0" (String "0"
                 (String (hex_digit (n / 16)) (char (hex_digit (n mod 16)))))))
  else char c.

Fixpoint escape (s : string) : string :=
  match s with
  | EmptyString => EmptyString
  | String c s' => escape_char c ++ escape s'
  end.

Definition encode_string (s : string) : string :=
  String dquote (escape s ++ char dquote).

Fixpoint spaces (level : nat) : string :=
  match level with
  | O => EmptyString
  | S level' => "  " ++ spaces level'
  end.

(** ['\n' + indent * level] *)
Definition newline_indent (level : nat) : string :=
  String newline (spaces level).

(** What follows the first item of a list: the other items, each after
    a comma and a line break, and the closing bracket on a line of its
    own. *)
Definition more_items (enc : pyval -> string) (level : nat)
  : list pyval -> string :=
  fix more (l : list pyval) : string :=
    match l with
    | [] => newline_indent level ++ "]"
    | y :: l' => "," ++ newline_indent (S level) ++ enc y ++ more l'
    end.

(** The same for the members of a dictionary. *)
Definition more_members (enc : pyval -> string) (level : nat)
  : list (string * pyval) -> string :=
  fix more (l : list (string * pyval)) : string :=
    match l with
    | [] => newline_indent level ++ "}"
    | (k, y) :: l' =>
        "," ++ newline_indent (S level) ++ encode_string k ++ ": "
        ++ enc y ++ more l'
    end.

(** The encoder at a nesting level; containers put every item on a
    line of its own, items are separated by [","] and keys are followed
    by [": "]. *)
Fixpoint encode (level : nat) (v : pyval) : string :=
  match v with
  | PNone => "null"
  | PBool true => "true"
  | PBool false => "false"
  | PInt n => str_of_Z n
  | PStr s => encode_string s
  | PList [] => "[]"
  | PList (x :: xs) =>
      "[" ++ newline_indent (S level) ++ encode (S level) x
      ++ more_items (encode (S level)) level xs
  | PDict [] => "{}"
  | PDict ((k, x) :: kvs) =>
      "{" ++ newline_indent (S level) ++ encode_string k ++ ": "
      ++ encode (S level) x ++ more_members (encode (S level)) level kvs
  end.

(** [json.dumps(obj, indent=2)] *)
Definition dumps (v : pyval) : string := encode 0 v.

(** *** Decoder *)

Definition is_ws (c : ascii) : bool :=
  let n := N_of_ascii c in
  ((n =? 32) || (n =? 9) || (n =? 10) || (n =? 13))%N.

Fixpoint skip_ws (s : string) : string :=
  match s with
  | EmptyString => EmptyString
  | String c s' => if is_ws c then skip_ws s' else s
  end.

Definition hex_val (c : ascii) : option N :=
  let n := N_of_ascii c in
  if ((48 <=? n) && (n <=? 57))%N then Some (n - 48)%N
  else if ((97 <=? n) && (n <=? 102))%N then Some (n - 87)%N
  else if ((65 <=? n) && (n <=? 70))%N then Some (n - 55)%N
  else None.

(** A [\uXXXX] escape; code points from 256 on are outside the model. *)
Definition unicode_escape (h1 h2 h3 h4 : ascii) : option ascii :=
  match hex_val h1, hex_val h2, hex_val h3, hex_val h4 with
  | Some a, Some b, Some c, Some d =>
      let n := (((a * 16 + b) * 16 + c) * 16 + d)%N in
      if (n <? 256)%N then Some (ascii_of_N n) else None
  | _, _, _, _ => None
  end.

Definition simple_escape (e : ascii) : option ascii :=
  let n := N_of_ascii e in
  if (n =? 34)%N then Some dquote
  else if (n =? 92)%N then Some backslash
  else if (n =? 47)%N then Some "/"%char
  else if (n =? 98)%N then Some (ascii_of_N 8)
  else if (n =? 102)%N then Some (ascii_of_N 12)
  else if (n =? 110)%N then Some (ascii_of_N 10)
  else if (n =? 114)%N then Some (ascii_of_N 13)
  else if (n =? 116)%N then Some (ascii_of_N 9)
  else None.

(** [scanstring], strict: reads a string literal whose opening quote
    has been consumed. *)
Fixpoint scan_string (s : string) : option (string * string) :=
  match s with
  | EmptyString => None
  | String c s' =>
      if Ascii.eqb c dquote then Some (EmptyString, s')
      else if Ascii.eqb c backslash then
        match s' with
        | EmptyString => None
        | String e s'' =>
            if Ascii.eqb e "u" then
              match s'' with
              | String h1 (String h2 (String h3 (String h4 r))) =>
                  match unicode_escape h1 h2 h3 h4, scan_string r with
                  | Some d, Some (str, rest) => Some (String d str, rest)
                  | _, _ => None
                  end
              | _ => None
              end
            else
              match simple_escape e, scan_string s'' with
              | Some d, Some (str, rest) => Some (String d str, rest)
              | _, _ => None
              end
        end
      else if (N_of_ascii c <? 32)%N then None
      else
        match scan_string s' with
        | Some (str, rest) => Some (String c str, rest)
        | None => None
        end
  end.

Definition digit_of_char (c : ascii) : option (Decimal.uint -> Decimal.uint) :=
  let n := N_of_ascii c in
  if (n =? 48)%N then Some Decimal.D0
  else if (n =? 49)%N then Some Decimal.D1
  else if (n =? 50)%N then Some Decimal.D2
  else if (n =? 51)%N then Some Decimal.D3
  else if (n =? 52)%N then Some Decimal.D4
  else if (n =? 53)%N then Some Decimal.D5
  else if (n =? 54)%N then Some Decimal.D6
  else if (n =? 55)%N then Some Decimal.D7
  else if (n =? 56)%N then Some Decimal.D8
  else if (n =? 57)%N then Some Decimal.D9
  else None.

(** The longest run of digits at the head of the text. *)
Fixpoint scan_digits (s : string) : Decimal.uint * string :=
  match s with
  | EmptyString => (Decimal.Nil, s)
  | String c s' =>
      match digit_of_char c with
      | Some d => let (ds, rest) := scan_digits s' in (d ds, rest)
      | None => (Decimal.Nil, s)
      end
  end.

(** The integer part of a number: ["0"] or a run of digits that does
    not start with ["0"]. *)
Definition scan_natural (s : string) : option (Decimal.uint * string) :=
  match s with
  | EmptyString => None
  | String c s' =>
      if Ascii.eqb c "0" then Some (Decimal.D0 Decimal.Nil, s')
      else
        match scan_digits s with
        | (Decimal.Nil, _) => None
        | (ds, rest) => Some (ds, rest)
        end
  end.

(** A number that continues with a fraction or an exponent is a float. *)
Definition starts_float (s : string) : bool :=
  match s with
  | String c _ => Ascii.eqb c "." || Ascii.eqb c "e" || Ascii.eqb c "E"
  | EmptyString => false
  end.

Definition scan_int (s : string) : option (Z * string) :=
  let signed :=
    match s with
    | String c s' =>
        if Ascii.eqb c "-"
        then match scan_natural s' with
             | Some (ds, rest) => Some (Decimal.Neg ds, rest)
             | None => None
             end
        else match scan_natural s with
             | Some (ds, rest) => Some (Decimal.Pos ds, rest)
             | None => None
             end
    | EmptyString => None
    end in
  match signed with
  | Some (d, rest) =>
      if starts_float rest then None else Some (Z.of_int d, rest)
  | None => None
  end.

(** Does the text start with the given word?  Returns what follows. *)
Fixpoint strip_prefix (word s : string) : option string :=
  match word, s with
  | EmptyString, _ => Some s
  | String a word', String b s' =>
      if Ascii.eqb a b then strip_prefix word' s' else None
  | String _ _, EmptyString => None
  end.

(** [dict(pairs)]: a later pair with the same key replaces the value. *)
Definition dict_of_pairs (pairs : list (string * pyval))
  : list (string * pyval) :=
  fold_left (fun d kv => PyDict.set (fst kv) (snd kv) d) pairs PyDict.empty.

(** [scan_once] with [JSONArray] and [JSONObject].  [parse_elements]
    is entered where a value is expected inside an array,
    [parse_members] where a key is expected (after its opening quote);
    both carry the items read so far, reversed.  [fuel] bounds the
    number of nested calls. *)
Fixpoint parse_value (fuel : nat) (s : string) : option (pyval * string) :=
  match fuel with
  | O => None
  | S fuel' =>
      match s with
      | EmptyString => None
      | String c r =>
          if Ascii.eqb c dquote then
            match scan_string r with
            | Some (str, rest) => Some (PStr str, rest)
            | None => None
            end
          else if Ascii.eqb c "{" then
            match skip_ws r with
            | String c1 r1 =>
                if Ascii.eqb c1 "}" then Some (PDict [], r1)
                else if Ascii.eqb c1 dquote
                then parse_members fuel' [] r1
                else None
            | EmptyString => None
            end
          else if Ascii.eqb c "[" then
            match skip_ws r with
            | String c1 r1 =>
                if Ascii.eqb c1 "]" then Some (PList [], r1)
                else parse_elements fuel' [] (String c1 r1)
            | EmptyString => None
            end
          else if Ascii.eqb c "n" then
            match strip_prefix "ull" r with
            | Some rest => Some (PNone, rest)
            | None => None
            end
          else if Ascii.eqb c "t" then
            match strip_prefix "rue" r with
            | Some rest => Some (PBool true, rest)
            | None => None
            end
          else if Ascii.eqb c "f" then
            match strip_prefix "alse" r with
            | Some rest => Some (PBool false, rest)
            | None => None
            end
          else
            match scan_int s with
            | Some (n, rest) => Some (PInt n, rest)
            | None => None
            end
      end
  end

with parse_elements (fuel : nat) (acc : list pyval) (s : string)
     : option (pyval * string) :=
  match fuel with
  | O => None
  | S fuel' =>
      match parse_value fuel' s with
      | Some (v, rest) =>
          match skip_ws rest with
          | String c r =>
              if Ascii.eqb c "]" then Some (PList (rev (v :: acc)), r)
              else if Ascii.eqb c ","
              then parse_elements fuel' (v :: acc) (skip_ws r)
              else None
          | EmptyString => None
          end
      | None => None
      end
  end

with parse_members (fuel : nat) (acc : list (string * pyval)) (s : string)
     : option (pyval * string) :=
  match fuel with
  | O => None
  | S fuel' =>
      match scan_string s with
      | Some (key, rest) =>
          match skip_ws rest with
          | String c r =>
              if Ascii.eqb c ":" then
                match parse_value fuel' (skip_ws r) with
                | Some (v, rest') =>
                    match skip_ws rest' with
                    | String c' r' =>
                        if Ascii.eqb c' "}"
                        then Some (PDict (dict_of_pairs
                                            (rev ((key, v) :: acc))), r')
                        else if Ascii.eqb c' "," then
                          match skip_ws r' with
                          | String q r'' =>
                              if Ascii.eqb q dquote
                              then parse_members fuel' ((key, v) :: acc) r''
                              else None
                          | EmptyString => None
                          end
                        else None
                    | EmptyString => None
                    end
                | None => None
                end
              else None
          | EmptyString => None
          end
      | None => None
      end
  end.

(** [json.loads(s)]; [None] stands for [JSONDecodeError].  The text
    itself bounds the nesting. *)
Definition loads (s : string) : option pyval :=
  match parse_value (S (String.length s)) (skip_ws s) with
  | Some (v, rest) =>
      match skip_ws rest with
      | EmptyString => Some v
      | String _ _ => None
      end
  | None => None
  end.

(** *** Values that are Python values

    A dictionary holds a key once. *)
Fixpoint well_formed (v : pyval) : Prop :=
  match v with
  | PList items => fold_right (fun x P => well_formed x /\ P) True items
  | PDict items =>
      NoDup (map fst items)
      /\ fold_right (fun kv P => well_formed (snd kv) /\ P) True items
  | _ => True
  end.

(** The number of nested calls the decoder needs for a value. *)
Fixpoint size (v : pyval) : nat :=
  match v with
  | PList items => S (fold_right (fun x n => S (size x + n)) 0 items)
  | PDict items => S (fold_right (fun kv n => S (size (snd kv) + n)) 0 items)
  | _ => 1
  end.

(** The first character of a number. *)
Definition number_head (c : ascii) : bool :=
  match digit_of_char c with
  | Some _ => true
  | None => Ascii.eqb c "-"
  end.

(** Digits as [str] prints them: a lone zero, or no leading zero. *)
Definition canonical (u : Decimal.uint) : Prop :=
  u = Decimal.D0 Decimal.Nil \/ (Decimal.nzhead u = u /\ u <> Decimal.Nil).

(** What may follow a number: not a digit, a point or an exponent. *)
Definition ends_number (rest : string) : bool :=
  match rest with
  | EmptyString => true
  | String c _ =>
      negb (starts_float rest)
      && match digit_of_char c with Some _ => false | None => true end
  end.

(** The characters of plain ASCII text: the printable ones and the line
    break. *)
Definition is_plain_ascii (c : ascii) : bool :=
  let n := N_of_ascii c in
  ((n =? 10) || (32 <=? n) && (n <=? 126))%N.

Fixpoint all_chars (p : ascii -> bool) (s : string) : bool :=
  match s with
  | EmptyString => true
  | String c s' => p c && all_chars p s'
  end.

(** A value is read back from its encoding, whatever the nesting level
    and whatever follows, given enough fuel. *)
Definition round_trips (v : pyval) : Prop :=
  forall (fuel level : nat) (rest : string),
    size v <= fuel ->
    ends_number rest = true ->
    parse_value fuel (encode level v ++ rest) = Some (v, rest).

End PyJson.

(* ------------------------------------------------------------------ *)
(** ** Feature matching *)

Module Matcher.
Import PyStr.

(** The value stored for a matched feature:
    [{"score": score, "justification": [...]}]. *)
Record match_info : Type := MatchInfo {
  score : Z;
  justification : list string
}.

(** The elements of a list in the order of their first occurrence. *)
Fixpoint first_occurrences (l : list string) : list string :=
  match l with
  | [] => []
  | x :: l' =>
      x :: filter (fun y => negb (String.eqb y x)) (first_occurrences l')
  end.

Definition placeholder : string :=
  "No exact sentence found, but feature is present in the patent text.".

Section WithScorer.

(** [fuzz.partial_ratio] of the fuzzywuzzy package. *)
Variable partial_ratio : string -> string -> Z.

(** The sentences of the text that support a feature. *)
Definition relevant_sentences (feature patent_text : string)
  : list string :=
  filter (fun s => (partial_ratio (lower feature) (lower s) >? 50)%Z)
         (split ". " patent_text).

(** The body of the [for feature in features] loop. *)
Definition compare_step (patent_text : string) (similarity_threshold : Z)
           (matches : PyDict.dict match_info) (feature : string)
  : PyDict.dict match_info :=
  let score := partial_ratio (lower feature) (lower patent_text) in
  if (score >? similarity_threshold)%Z then
    let relevant := relevant_sentences feature patent_text in
    match relevant with
    | _ :: _ =>
        PyDict.set feature (MatchInfo score (firstn 3 relevant)) matches
    | [] =>
        PyDict.set feature (MatchInfo score [placeholder]) matches
    end
  else matches.

(** What the loop stores for a feature it retains, as a function of
    the feature and the text alone. *)
Definition feature_score (feature patent_text : string) : Z :=
  partial_ratio (lower feature) (lower patent_text).

Definition entry (feature patent_text : string) : match_info :=
  MatchInfo (feature_score feature patent_text)
            (match relevant_sentences feature patent_text with
             | [] => [placeholder]
             | _ :: _ => firstn 3 (relevant_sentences feature patent_text)
             end).

(** Was the feature submitted, with a score above the threshold? *)
Definition retained (similarity_threshold : Z) (patent_text : string)
           (features : list string) (feature : string) : bool :=
  existsb (String.eqb feature) features
  && (feature_score feature patent_text >? similarity_threshold)%Z.

Definition compare_features (features : list string)
           (patent_text : string) (similarity_threshold : Z)
  : PyDict.dict match_info :=
  fold_left (compare_step patent_text similarity_threshold)
            features PyDict.empty.

End WithScorer.

End Matcher.

(* ------------------------------------------------------------------ *)
(** ** The application: effects, scraping, search and the submit handler *)

Module App.
Import PyStr Matcher.

(** An exception, identified with its message [str(e)]. *)
Inductive exn : Type := Exception (msg : string).

Definition str_exn (e : exn) : string :=
  match e with Exception msg => msg end.

Definition nl : string := String (ascii_of_nat 10) EmptyString.

Definition str_of_Z := PyJson.str_of_Z.

(** One entry of the provider's [organic_results]: a dictionary whose
    fields [title] and [link], when present, are strings. *)
Definition patent : Type := PyDict.dict string.

(** [d.get(k, default)] *)
Definition get_default {V} (k : string) (default : V) (d : PyDict.dict V)
  : V :=
  match PyDict.get k d with
  | Some v => v
  | None => default
  end.

(** What [BeautifulSoup.find] returns for the three places the scraper
    looks at: the [meta name="DC.description"] tag with its [content]
    attribute if it has one, the [.text] of [div class="description"]
    and the [.text] of [section itemprop="claims"]. *)
Record page : Type := Page {
  meta_dc_description : option (option string);
  div_description : option string;
  section_claims : option string
}.

(** An element of [best_patents]: [(title, link, matches)]. *)
Definition record : Type := (string * string * PyDict.dict match_info)%type.

(** Everything the program does to the outside world, in order.
    [Scored] is a ghost event: it marks a call of [compare_features]
    and has no counterpart on the screen or on the network.  The
    rendering of the result tabs is summarised by [StTabs]. *)
Inductive event : Type :=
| GoogleSearchCall (params : PyDict.dict string)
| RequestsGet (url : string) (headers : PyDict.dict string)
| Scored (link patent_text : string)
| StError (msg : string)
| StWarning (msg : string)
| StSuccess (msg : string)
| StHeader (msg : string)
| StSpinner (msg : string)
| StProgressNew (value : Z)
| StEmptyNew
| StatusText (msg : string)
| ProgressValue (num den : Z)
| ProgressEmpty
| StatusEmpty
| StTabs (best_patents : list record)
| StDownloadButton (label data file_name mime : string).

(** Is the event a call that leaves the process? *)
Definition is_network (e : event) : bool :=
  match e with
  | GoogleSearchCall _ | RequestsGet _ _ => true
  | _ => false
  end.

(** A Python computation: it extends the log of events and either
    returns a value or raises. *)
Definition py (A : Type) : Type := list event -> (exn + A) * list event.

Definition ret {A} (a : A) : py A := fun log => (inr a, log).

Definition raise {A} (e : exn) : py A := fun log => (inl e, log).

Definition bind {A B} (m : py A) (k : A -> py B) : py B :=
  fun log =>
    match m log with
    | (inl e, log') => (inl e, log')
    | (inr a, log') => k a log'
    end.

Definition emit (e : event) : py unit := fun log => (inr tt, (log ++ [e])%list).

(** [try: body  except Exception as e: handler(e)] *)
Definition try_except {A} (body : py A) (handler : exn -> py A) : py A :=
  fun log =>
    match body log with
    | (inl e, log') => handler e log'
    | (inr a, log') => (inr a, log')
    end.

Declare Scope py_scope.
Delimit Scope py_scope with py.
Notation "x <- m ;; k" := (bind m (fun x => k))
  (at level 61, m at next level, right associativity) : py_scope.
Notation "m ;; k" := (bind m (fun _ => k))
  (at level 61, right associativity) : py_scope.
Local Open Scope py_scope.

(** [xs[:n]] *)
Definition slice_to {A} (n : Z) (xs : list A) : list A :=
  if (n <? 0)%Z
  then firstn (Z.to_nat (Z.of_nat (List.length xs) + n)) xs
  else firstn (Z.to_nat n) xs.

Section WithWorld.

Variable partial_ratio : string -> string -> Z.

(** The search provider: [GoogleSearch(params).get_dict()] followed
    by the lookup of ["organic_results"], which may be absent.  The
    answer may depend on everything that happened before. *)
Variable serpapi :
  list event -> PyDict.dict string -> exn + option (list patent).

(** The web: [requests.get(url, headers=...)] followed by the parse
    of [response.text]. *)
Variable web : list event -> string -> PyDict.dict string -> exn + page.

Definition google_search (params : PyDict.dict string)
  : py (option (list patent)) :=
  fun log => (serpapi log params, (log ++ [GoogleSearchCall params])%list).

Definition requests_get_soup (url : string) (headers : PyDict.dict string)
  : py page :=
  fun log => (web log url headers, (log ++ [RequestsGet url headers])%list).

Definition get_patent_results (query api_key : string)
  : py (list patent) :=
  try_except
    (results <- google_search
                  [("q", query ++ " site:patents.google.com");
                   ("location", "United States");
                   ("api_key", api_key)] ;;
     ret (match results with
          | Some organic_results => organic_results
          | None => []
          end))
    (fun e =>
       emit (StError ("Error in API search: " ++ str_exn e)) ;;
       ret []).

Definition no_description : string :=
  "No detailed description available.".

Definition scrape_patent_details (url : string) : py string :=
  try_except
    (soup <- requests_get_soup url [("User-Agent", "Mozilla/5.0")] ;;
     abstract <- match meta_dc_description soup with
                 | Some (Some content) => ret content
                 | Some None => raise (Exception "'content'")
                 | None => ret ""
                 end ;;
     let description := match div_description soup with
                        | Some text => strip text
                        | None => ""
                        end in
     let claims := match section_claims soup with
                   | Some text => strip text
                   | None => ""
                   end in
     let full_text :=
       abstract ++ nl ++ nl ++ description ++ nl ++ nl ++ claims in
     ret (if truthy (strip full_text) then full_text
          else no_description))
    (fun e => ret ("Error scraping patent details: " ++ str_exn e)).

(** The [for i, patent in enumerate(patents[:max_patents])] loop;
    [n] is [len(patents)], [rest] what is left of the slice and
    [best_patents] the list built so far.  The argument of
    [progress_bar.progress] is logged as numerator and denominator of the
    division; the check Streamlit makes on it (a float in [0, 1]) is not
    part of the model, see [search_progress_in_range]. *)
Fixpoint analyse (features : list string)
         (similarity_threshold min_feature_matches max_patents : Z)
         (n : Z) (i : Z) (rest : list patent)
         (best_patents : list record) : py (list record) :=
  match rest with
  | [] => ret best_patents
  | patent :: rest' =>
      let continue_with best :=
        analyse features similarity_threshold min_feature_matches
                max_patents n (i + 1)%Z rest' best in
      emit (StatusText ("Analyzing patent " ++ str_of_Z (i + 1) ++ "/"
                        ++ str_of_Z (Z.min n max_patents) ++ "...")) ;;
      emit (ProgressValue (i + 1) (Z.min n max_patents)) ;;
      let title := get_default "title" "Untitled Patent" patent in
      let link := get_default "link" "" patent in
      if negb (truthy link) then continue_with best_patents
      else
        patent_text <- scrape_patent_details link ;;
        emit (Scored link patent_text) ;;
        let matches :=
          compare_features partial_ratio features patent_text
                           similarity_threshold in
        if (PyDict.len matches >=? min_feature_matches)%Z
        then continue_with (best_patents ++ [(title, link, matches)])%list
        else continue_with best_patents
  end.

Definition search_best_matching_patents
           (new_invention : string) (features : list string)
           (api_key : string)
           (similarity_threshold min_feature_matches max_patents : Z)
  : py (list record) :=
  let query := new_invention in
  patents <- get_patent_results query api_key ;;
  emit (StProgressNew 0) ;;
  emit StEmptyNew ;;
  best_patents <-
    analyse features similarity_threshold min_feature_matches max_patents
            (Z.of_nat (List.length patents)) 0
            (slice_to max_patents patents) [] ;;
  emit ProgressEmpty ;;
  emit StatusEmpty ;;
  ret best_patents.

(** *** The submit handler *)

(** The values of the widgets when the script runs. *)
Record form : Type := Form {
  submit_button : bool;
  api_key : string;
  similarity_threshold : Z;
  min_feature_matches : Z;
  max_patents : Z;
  new_invention : string;
  features_text : string
}.

(** [[feature.strip() for feature in
      features_text.strip().split('\n') if feature.strip()]] *)
Definition parse_features (features_text : string) : list string :=
  map strip
      (filter (fun feature => truthy (strip feature))
              (split nl (strip features_text))).

(** The value of [matches] as [json.dumps] sees it. *)
Definition info_value (m : match_info) : PyJson.pyval :=
  PyJson.PDict
    [("score", PyJson.PInt (score m));
     ("justification", PyJson.PList (map PyJson.PStr (justification m)))].

Definition matches_value (matches : PyDict.dict match_info)
  : PyJson.pyval :=
  PyJson.PDict (map (fun kv => (fst kv, info_value (snd kv))) matches).

(** The list comprehension that is handed to [json.dumps]. *)
Definition export_value (best_patents : list record) : PyJson.pyval :=
  PyJson.PList
    (map (fun r : record =>
            let '(title, link, matches) := r in
            PyJson.PDict [("patent_title", PyJson.PStr title);
                          ("patent_link", PyJson.PStr link);
                          ("matches", matches_value matches)])
         best_patents).

Definition result_json (best_patents : list record) : string :=
  PyJson.dumps (export_value best_patents).

(** The module-level code under [if submit_button:]. *)
Definition on_submit (f : form) : py unit :=
  if submit_button f then
    if negb (truthy (api_key f)) then
      emit (StError "Please enter your SerpAPI key in the sidebar.")
    else if negb (truthy (new_invention f)) then
      emit (StError "Please describe your invention.")
    else if negb (truthy (features_text f)) then
      emit (StError "Please enter at least one feature.")
    else
      let features := parse_features (features_text f) in
      match features with
      | [] => emit (StError "Please enter valid features (one per line).")
      | _ :: _ =>
          emit (StSpinner "Searching for matching patents...") ;;
          best_patents <-
            search_best_matching_patents
              (new_invention f) features (api_key f)
              (similarity_threshold f) (min_feature_matches f)
              (max_patents f) ;;
          emit (StHeader "Search Results") ;;
          match best_patents with
          | [] =>
              emit (StWarning "No patents found with enough feature matches. Try adjusting your search parameters.")
          | _ :: _ =>
              emit (StSuccess
                      ("Found "
                       ++ str_of_Z (Z.of_nat (List.length best_patents))
                       ++ " patents matching at least "
                       ++ str_of_Z (min_feature_matches f)
                       ++ " features.")) ;;
              emit (StTabs best_patents) ;;
              emit (StDownloadButton "Download Results as JSON"
                                     (result_json best_patents)
                                     "patent_matches.json"
                                     "application/json")
          end
      end
  else ret tt.

End WithWorld.

(** What the page shows once a search has returned. *)
Definition report (min_feature_matches : Z) (best_patents : list record)
  : list event :=
  StHeader "Search Results"
  :: match best_patents with
     | [] =>
         [StWarning "No patents found with enough feature matches. Try adjusting your search parameters."]
     | _ :: _ =>
         [StSuccess ("Found "
                     ++ str_of_Z (Z.of_nat (List.length best_patents))
                     ++ " patents matching at least "
                     ++ str_of_Z min_feature_matches
                     ++ " features.");
          StTabs best_patents;
          StDownloadButton "Download Results as JSON"
                           (result_json best_patents)
                           "patent_matches.json" "application/json"]
     end.

(** *** Reading the export back

    The inverse of [export_value] on parsed JSON: the titles, links,
    scores and justification lists of a decoded export. *)

Definition as_str (v : PyJson.pyval) : option string :=
  match v with PyJson.PStr s => Some s | _ => None end.

Fixpoint as_str_list (vs : list PyJson.pyval) : option (list string) :=
  match vs with
  | [] => Some []
  | v :: vs' =>
      match as_str v, as_str_list vs' with
      | Some s, Some l => Some (s :: l)
      | _, _ => None
      end
  end.

Definition info_of_value (v : PyJson.pyval) : option match_info :=
  match v with
  | PyJson.PDict d =>
      match PyDict.get "score" d, PyDict.get "justification" d with
      | Some (PyJson.PInt n), Some (PyJson.PList js) =>
          match as_str_list js with
          | Some l => Some (MatchInfo n l)
          | None => None
          end
      | _, _ => None
      end
  | _ => None
  end.

Fixpoint matches_of_items (items : list (string * PyJson.pyval))
  : option (PyDict.dict match_info) :=
  match items with
  | [] => Some []
  | (k, v) :: items' =>
      match info_of_value v, matches_of_items items' with
      | Some m, Some d => Some ((k, m) :: d)
      | _, _ => None
      end
  end.

Definition record_of_value (v : PyJson.pyval) : option record :=
  match v with
  | PyJson.PDict d =>
      match PyDict.get "patent_title" d, PyDict.get "patent_link" d,
            PyDict.get "matches" d with
      | Some (PyJson.PStr title), Some (PyJson.PStr link),
        Some (PyJson.PDict items) =>
          match matches_of_items items with
          | Some matches => Some (title, link, matches)
          | None => None
          end
      | _, _, _ => None
      end
  | _ => None
  end.

Fixpoint records_of_values (vs : list PyJson.pyval) : option (list record) :=
  match vs with
  | [] => Some []
  | v :: vs' =>
      match record_of_value v, records_of_values vs' with
      | Some r, Some l => Some (r :: l)
      | _, _ => None
      end
  end.

Definition import_value (v : PyJson.pyval) : option (list record) :=
  match v with
  | PyJson.PList vs => records_of_values vs
  | _ => None
  end.

(** The arguments of the two outgoing calls. *)
Definition search_params (query api_key : string) : PyDict.dict string :=
  [("q", query ++ " site:patents.google.com");
   ("location", "United States");
   ("api_key", api_key)].

Definition user_agent : PyDict.dict string :=
  [("User-Agent", "Mozilla/5.0")].

(** In the events [evs] that follow [log], every text handed to
    [compare_features] is the one [scrape_patent_details] has just
    returned for that link: the event before it is the fetch of the link,
    and the scraper, run where the fetch was made, returned that text. *)
Definition scored_what_was_scraped
           (web : list event -> string -> PyDict.dict string -> exn + page)
           (log evs : list event) : Prop :=
  forall pre link patent_text post,
    evs = (pre ++ Scored link patent_text :: post)%list ->
    exists pre',
      pre = (pre' ++ [RequestsGet link user_agent])%list
      /\ scrape_patent_details web link (log ++ pre')%list
         = (inr patent_text, (log ++ pre)%list).

(** *** Reading a log *)

(** The URLs that were fetched, in order. *)
Definition fetched (log : list event) : list string :=
  flat_map (fun e => match e with RequestsGet url _ => [url] | _ => [] end)
           log.

(** The links whose text was handed to [compare_features], in order. *)
Definition scored (log : list event) : list string :=
  flat_map (fun e => match e with Scored link _ => [link] | _ => [] end) log.

(** The links and texts handed to [compare_features], in order. *)
Definition scored_texts (log : list event) : list (string * string) :=
  flat_map (fun e => match e with
                     | Scored link patent_text => [(link, patent_text)]
                     | _ => []
                     end) log.

Definition is_scored (e : event) : bool :=
  match e with
  | Scored _ _ => true
  | _ => false
  end.

(** The values given to the progress bar, as numerator and denominator. *)
Definition progress_values (log : list event) : list (Z * Z) :=
  flat_map (fun e => match e with
                     | ProgressValue num den => [(num, den)]
                     | _ => []
                     end) log.

(** The calls that left the process, in order. *)
Definition network_calls (log : list event) : list event :=
  filter is_network log.

(** The title and link the loop reads from a candidate. *)
Definition candidate (p : patent) : string * string :=
  (get_default "title" "Untitled Patent" p, get_default "link" "" p).

(** The links of the candidates that have one. *)
Definition linked (ps : list patent) : list string :=
  filter truthy (map (fun p => snd (candidate p)) ps).

Definition title_link (r : record) : string * string :=
  (fst (fst r), snd (fst r)).

(** [subseq l1 l2]: [l1] is [l2] with some elements left out. *)
Inductive subseq {A : Type} : list A -> list A -> Prop :=
| subseq_nil : subseq [] []
| subseq_skip x l1 l2 : subseq l1 l2 -> subseq l1 (x :: l2)
| subseq_take x l1 l2 : subseq l1 l2 -> subseq (x :: l1) (x :: l2).

(** *** A scorer and a world to run the model on

    [contains_ratio] is a stand-in for [fuzz.partial_ratio] in the
    examples: 100 when the first text occurs in the second, else 0. *)

Definition contains_ratio (a b : string) : Z :=
  if contains a b then 100%Z else 0%Z.




(** A provider that answers every query with the same three candidates,
    the first of which has no link. *)
Definition three_candidates : list patent :=
  [[("title", "No link")];
   [("title", "Widget"); ("link", "http://a")];
   [("link", "http://b")]].

Definition sample_serpapi (_ : list event) (_ : PyDict.dict string)
  : exn + option (list patent) :=
  inr (Some three_candidates).

(** A provider that is down. *)
Definition failing_serpapi (_ : list event) (_ : PyDict.dict string)
  : exn + option (list patent) :=
  inl (Exception "Connection refused").

(** A web on which [http://a] describes a red widget and every other
    address fails. *)
Definition sample_web (_ : list event) (url : string)
           (_ : PyDict.dict string) : exn + page :=
  if String.eqb url "http://a"
  then inr (Page (Some (Some "A red widget. With a blue gear"))
                 (Some " Description ") None)
  else inl (Exception "404").

Definition sample_form : form :=
  Form true "key" 40 1 2 "a widget" ("red widget" ++ nl ++ "  " ++ nl ++ "blue gear").

End App.

(* ================================================================== *)
(** * Properties *)

(** ** Strings *)

Module PyStrFacts.
Import PyStr.

Lemma append_nil_r (s : string) : s ++ "" = s.
Proof. induction s as [|c s IH]; simpl; [reflexivity | now rewrite IH]. Qed.

Lemma append_assoc (a b c : string) : (a ++ b) ++ c = a ++ (b ++ c).
Proof. induction a as [|x a IH]; simpl; [reflexivity | now rewrite IH]. Qed.

Lemma length_append (a b : string) :
  String.length (a ++ b) = String.length a + String.length b.
Proof. induction a as [|x a IH]; simpl; [reflexivity | now rewrite IH]. Qed.

Lemma append_snoc (a : string) (c : ascii) (b : string) :
  (a ++ String c "") ++ b = a ++ String c b.
Proof. now rewrite append_assoc. Qed.

(** [prefix] says what it should. *)
Lemma prefix_append (p s : string) :
  prefix p s = true <-> exists r, s = p ++ r.
Proof.
  revert s; induction p as [|a p IH]; intros s; simpl.
  - destruct s; split; eauto.
  - destruct s as [|b s]; simpl.
    + split; [discriminate | intros [r Hr]; discriminate].
    + destruct (ascii_dec a b) as [->|Hab].
      * rewrite IH. split; intros [r Hr]; exists r.
        -- now rewrite Hr.
        -- now inversion Hr.
      * split; [discriminate | intros [r Hr]; inversion Hr; congruence].
Qed.

Lemma prefix_extend (p s r : string) :
  prefix p s = true -> prefix p (s ++ r) = true.
Proof.
  intros H. apply prefix_append in H as [q ->].
  apply prefix_append. exists (q ++ r). apply append_assoc.
Qed.

(** *** Case folding *)

Lemma lower_upper_char (c : ascii) : lower_char (upper_char c) = lower_char c.
Proof.
  destruct c as [[] [] [] [] [] [] [] []]; reflexivity.
Qed.

Lemma lower_char_idem (c : ascii) : lower_char (lower_char c) = lower_char c.
Proof.
  destruct c as [[] [] [] [] [] [] [] []]; reflexivity.
Qed.

Lemma lower_idem (s : string) : lower (lower s) = lower s.
Proof.
  induction s as [|c s IH]; simpl; [reflexivity|].
  now rewrite lower_char_idem, IH.
Qed.





Lemma same_letter_upper (c : ascii) : same_letter (upper_char c) c = true.
Proof.
  destruct c as [[] [] [] [] [] [] [] []]; reflexivity.
Qed.

Lemma case_variant_to_upper (s : string) : case_variant (to_upper s) s.
Proof.
  unfold case_variant. induction s as [|c s IH]; cbn; [reflexivity|].
  now rewrite same_letter_upper, IH.
Qed.

Lemma case_variant_lower (s : string) : case_variant (lower s) s.
Proof.
  unfold case_variant. induction s as [|c s IH]; cbn; [reflexivity|].
  rewrite IH, andb_true_r. unfold same_letter.
  now rewrite lower_char_idem, Ascii.eqb_refl, orb_true_r.
Qed.

(** *** Splitting *)

Section Split.
Variable sep : string.
Hypothesis sep_nonempty : sep <> "".

Lemma split_go_nonempty (s : string) :
  forall k cur, split_go sep k cur s <> [].
Proof.
  induction s as [|c s IH]; intros k cur; cbn [split_go]; [discriminate|].
  destruct k; [|apply IH].
  destruct (prefix sep (String c s)); [discriminate | apply IH].
Qed.

Lemma prefix_tail (c : ascii) (s : string) :
  prefix sep (String c s) = true ->
  exists pre r,
    String.length pre = String.length sep - 1 /\
    s = pre ++ r /\ String c s = sep ++ r.
Proof.
  intros Hp. apply prefix_append in Hp as [r Hr].
  pose proof sep_nonempty as Hne. revert Hne Hr. generalize sep.
  intros [|a p] Hne Hr; [congruence|].
  simpl in Hr. inversion Hr; subst.
  exists p, r. simpl. repeat split. lia.
Qed.

Lemma split_go_skip (pre : string) :
  forall cur s,
    split_go sep (String.length pre) cur (pre ++ s) = split_go sep 0 cur s.
Proof.
  induction pre as [|c pre IH]; intros cur s; simpl.
  - destruct s; reflexivity.
  - apply IH.
Qed.

Lemma concat_cons (x : string) (l : list string) :
  l <> [] -> concat sep (x :: l) = x ++ sep ++ concat sep l.
Proof. destruct l; [congruence | reflexivity]. Qed.

Lemma split_go_join_aux (n : nat) :
  forall s cur, String.length s <= n ->
    concat sep (split_go sep 0 cur s) = cur ++ s.
Proof.
  induction n as [|n IH]; intros s cur Hlen.
  - destruct s; [simpl; now rewrite append_nil_r | simpl in Hlen; lia].
  - destruct s as [|c s]; [simpl; now rewrite append_nil_r|].
    unfold split_go; fold split_go.
    destruct (prefix sep (String c s)) eqn:Hp.
    + apply prefix_tail in Hp as (pre & r & Hpre & Hs & Hall).
      rewrite <- Hpre, Hs, split_go_skip.
      rewrite concat_cons by apply split_go_nonempty.
      rewrite IH.
      * rewrite <- Hs. simpl. now rewrite Hall.
      * simpl in Hlen. rewrite Hs, length_append in Hlen. lia.
    + rewrite IH by (simpl in Hlen; lia). apply append_snoc.
Qed.

(** Joining the pieces with the separator gives the text back. *)
Lemma split_join (s : string) : concat sep (split sep s) = s.
Proof. unfold split. now rewrite (split_go_join_aux (String.length s)). Qed.

Lemma no_start_snoc (cur : string) (c : ascii) (s : string) :
  no_start sep cur (String c s) = true ->
  prefix sep (String c s) = false ->
  no_start sep (cur ++ String c "") s = true.
Proof.
  induction cur as [|x cur IH]; intros H Hp.
  - simpl. simpl in Hp. rewrite Hp. reflexivity.
  - cbn [no_start] in H. apply andb_true_iff in H as [H1 H2].
    change (String x cur ++ String c "") with (String x (cur ++ String c "")).
    cbn [no_start]. rewrite (IH H2 Hp), andb_true_r.
    change (String x (cur ++ String c "") ++ s)
      with (String x ((cur ++ String c "") ++ s)).
    rewrite append_snoc. exact H1.
Qed.

Lemma prefix_sep_empty : prefix sep "" = false.
Proof. destruct sep; [congruence | reflexivity]. Qed.

Lemma no_start_contains (cur s : string) :
  no_start sep cur s = true -> contains sep cur = false.
Proof.
  induction cur as [|x cur IH]; intros H.
  - cbn [contains]. now rewrite prefix_sep_empty.
  - cbn [no_start] in H. apply andb_true_iff in H as [H1 H2].
    cbn [contains]. rewrite (IH H2), orb_false_r.
    destruct (prefix sep (String x cur)) eqn:Hp; [|reflexivity].
    apply (prefix_extend _ _ s) in Hp. rewrite Hp in H1. discriminate.
Qed.

Lemma split_go_pieces (s : string) :
  forall k cur,
    (k = 0 -> no_start sep cur s = true) ->
    (k <> 0 -> cur = "") ->
    Forall (fun piece => contains sep piece = false) (split_go sep k cur s).
Proof.
  induction s as [|c s IH]; intros k cur H0 Hk.
  - simpl. constructor; [|constructor].
    destruct k.
    + apply (no_start_contains cur ""). now apply H0.
    + rewrite Hk by discriminate. cbn [contains].
      now rewrite prefix_sep_empty.
  - cbn [split_go]. destruct k as [|k].
    + specialize (H0 eq_refl).
      destruct (prefix sep (String c s)) eqn:Hp.
      * constructor; [now apply (no_start_contains cur (String c s))|].
        apply IH; intros; reflexivity.
      * apply IH; [intros _ | congruence].
        now apply no_start_snoc.
    + rewrite (Hk ltac:(discriminate)).
      apply IH; intros; reflexivity.
Qed.

(** No piece contains the separator. *)
Lemma split_pieces (s : string) :
  Forall (fun piece => contains sep piece = false) (split sep s).
Proof. apply split_go_pieces; [reflexivity | congruence]. Qed.

End Split.

End PyStrFacts.

(** ** Dictionaries *)

Module PyDictFacts.
Import PyDict.

Section Facts.
Context {V : Type}.
Implicit Types (d : dict V) (k : string) (v : V).

Lemma get_set_same k v d : get k (set k v d) = Some v.
Proof.
  induction d as [|[k' v'] d IH]; simpl.
  - now rewrite String.eqb_refl.
  - destruct (String.eqb k k') eqn:E; simpl.
    + now rewrite String.eqb_refl.
    + now rewrite E.
Qed.

Lemma get_set_other k k' v d :
  k' <> k -> get k' (set k v d) = get k' d.
Proof.
  intros Hne. induction d as [|[k0 v0] d IH]; simpl.
  - now apply String.eqb_neq in Hne as ->.
  - destruct (String.eqb k k0) eqn:E; simpl.
    + apply String.eqb_eq in E as <-.
      now apply String.eqb_neq in Hne as ->.
    + now rewrite IH.
Qed.

Lemma in_keys_get k d : In k (keys d) <-> exists v, get k d = Some v.
Proof.
  induction d as [|[k' v'] d IH]; simpl.
  - split; [tauto | intros [v Hv]; discriminate].
  - destruct (String.eqb k k') eqn:E.
    + apply String.eqb_eq in E as ->. split; eauto.
    + apply String.eqb_neq in E. rewrite <- IH.
      split; [intros [H|H]; [congruence | exact H] | now right].
Qed.

Lemma not_in_keys_get k d : ~ In k (keys d) <-> get k d = None.
Proof.
  rewrite in_keys_get. destruct (get k d).
  - split; [intros H; exfalso; eauto | discriminate].
  - split; [reflexivity | intros _ [v Hv]; discriminate].
Qed.

Lemma keys_set k v d x :
  In x (keys (set k v d)) <-> x = k \/ In x (keys d).
Proof.
  induction d as [|[k' v'] d IH]; simpl.
  - intuition congruence.
  - destruct (String.eqb k k') eqn:E; simpl.
    + apply String.eqb_eq in E as ->. intuition congruence.
    + rewrite IH. intuition congruence.
Qed.

Lemma NoDup_keys_set k v d : NoDup (keys d) -> NoDup (keys (set k v d)).
Proof.
  induction d as [|[k' v'] d IH]; simpl; intros Hnd.
  - constructor; [intros [] | constructor].
  - inversion Hnd as [|? ? Hnotin Hnd']; subst.
    destruct (String.eqb k k') eqn:E; simpl.
    + apply String.eqb_eq in E as ->. now constructor.
    + constructor; [|now apply IH].
      fold (keys (set k v d)). rewrite keys_set.
      apply String.eqb_neq in E. intuition congruence.
Qed.

Lemma set_same_value k v d : get k d = Some v -> set k v d = d.
Proof.
  induction d as [|[k' v'] d IH]; simpl; [discriminate|].
  destruct (String.eqb k k') eqn:E.
  - apply String.eqb_eq in E as ->. now intros [= ->].
  - intros H. now rewrite IH.
Qed.

Lemma set_fresh k v d : get k d = None -> set k v d = (d ++ [(k, v)])%list.
Proof.
  induction d as [|[k' v'] d IH]; simpl; [reflexivity|].
  destruct (String.eqb k k') eqn:E; [discriminate|].
  intros H. now rewrite IH.
Qed.

End Facts.

End PyDictFacts.

(** ** Feature matching *)

Module MatcherFacts.
Import PyStr PyDict Matcher PyStrFacts PyDictFacts.

Section WithScorer.

Variable partial_ratio : string -> string -> Z.

#[local] Abbreviation compare_features := (compare_features partial_ratio).
#[local] Abbreviation compare_step := (compare_step partial_ratio).
#[local] Abbreviation entry := (entry partial_ratio).
#[local] Abbreviation feature_score := (feature_score partial_ratio).
#[local] Abbreviation retained := (retained partial_ratio).

Implicit Types (features : list string) (feature patent_text : string)
         (similarity_threshold : Z) (matches : dict match_info).

(** One turn of the loop either stores [entry feature patent_text]
    under the feature or leaves the dictionary alone. *)
Lemma compare_step_eq patent_text similarity_threshold matches feature :
  compare_step patent_text similarity_threshold matches feature =
  if (feature_score feature patent_text >? similarity_threshold)%Z
  then set feature (entry feature patent_text) matches
  else matches.
Proof.
  unfold Matcher.compare_step, Matcher.entry, Matcher.feature_score.
  destruct (_ >? _)%Z; [|reflexivity].
  destruct (relevant_sentences _ _ _); reflexivity.
Qed.

Lemma fold_get patent_text similarity_threshold features :
  forall matches feature,
    get feature
        (fold_left (compare_step patent_text similarity_threshold)
                   features matches) =
    if retained similarity_threshold patent_text features feature
    then Some (entry feature patent_text)
    else get feature matches.
Proof.
  unfold Matcher.retained.
  induction features as [|a features IH]; intros matches feature;
    [reflexivity|].
  cbn [fold_left existsb]. rewrite IH, compare_step_eq.
  destruct (String.eqb feature a) eqn:E.
  - apply String.eqb_eq in E as ->. cbn [orb andb].
    destruct (feature_score a patent_text >? similarity_threshold)%Z.
    + rewrite andb_true_r, get_set_same.
      now destruct (existsb _ _).
    + now rewrite andb_false_r.
  - cbn [orb]. apply String.eqb_neq in E.
    destruct (existsb _ _ && _); [reflexivity|].
    destruct (feature_score a patent_text >? similarity_threshold)%Z;
      [now apply get_set_other | reflexivity].
Qed.

(** The value found under a feature, in closed form. *)
Lemma compare_features_get features patent_text similarity_threshold
      feature :
  get feature (compare_features features patent_text similarity_threshold)
  = if retained similarity_threshold patent_text features feature
    then Some (entry feature patent_text)
    else None.
Proof. unfold Matcher.compare_features. now rewrite fold_get. Qed.

Lemma retained_spec similarity_threshold patent_text features feature :
  retained similarity_threshold patent_text features feature = true <->
  In feature features /\
  (feature_score feature patent_text > similarity_threshold)%Z.
Proof.
  unfold Matcher.retained. rewrite andb_true_iff, existsb_exists.
  rewrite Z.gtb_gt.
  split; intros [H1 H2]; split; trivial.
  - destruct H1 as (x & Hx & E). now apply String.eqb_eq in E as ->.
  - exists feature. split; [trivial | apply String.eqb_refl].
Qed.

Lemma compare_features_keys features patent_text similarity_threshold
      feature :
  In feature
     (keys (compare_features features patent_text similarity_threshold))
  <-> retained similarity_threshold patent_text features feature = true.
Proof.
  rewrite in_keys_get, compare_features_get.
  destruct (retained _ _ _ _); split; eauto.
  - intros [v Hv]; discriminate.
  - discriminate.
Qed.

Lemma fold_NoDup patent_text similarity_threshold features :
  forall matches,
    NoDup (keys matches) ->
    NoDup (keys (fold_left (compare_step patent_text similarity_threshold)
                           features matches)).
Proof.
  induction features as [|a features IH]; intros matches Hnd;
    [exact Hnd|].
  cbn [fold_left]. apply IH. rewrite compare_step_eq.
  destruct (_ >? _)%Z; [now apply NoDup_keys_set | exact Hnd].
Qed.

(** A dictionary never holds a key twice. *)
Lemma compare_features_NoDup features patent_text similarity_threshold :
  NoDup (keys (compare_features features patent_text similarity_threshold)).
Proof. apply fold_NoDup. constructor. Qed.

(** **** C1 *)

(** C1.  A feature is a key of the mapping returned by
    [compare_features] if and only if it was submitted and its score
    against the whole text is strictly greater than the threshold; in
    particular a score equal to the threshold keeps the feature out,
    and every key is one of the submitted features. *)
Theorem compare_features_threshold_strict
        features patent_text similarity_threshold feature :
  (In feature
      (keys (compare_features features patent_text similarity_threshold))
   <->
   In feature features /\
   (partial_ratio (lower feature) (lower patent_text)
    > similarity_threshold)%Z)
  /\
  (partial_ratio (lower feature) (lower patent_text)
   = similarity_threshold ->
   ~ In feature
       (keys (compare_features features patent_text similarity_threshold))).
Proof.
  assert (Hiff :
    In feature
       (keys (compare_features features patent_text similarity_threshold))
    <-> In feature features /\
        (partial_ratio (lower feature) (lower patent_text)
         > similarity_threshold)%Z).
  { rewrite compare_features_keys. apply retained_spec. }
  split; [exact Hiff|].
  intros Heq Hin. apply Hiff in Hin as [_ Hgt]. lia.
Qed.

(** **** C3 *)

Lemma firstn_3_bounds {A} (l : list A) :
  l <> [] -> (1 <= List.length (firstn 3 l) <= 3)%nat.
Proof.
  intros Hne. destruct l as [|a [|b [|c l]]]; [congruence | simpl; lia ..].
Qed.

(** C3.  The justification stored for a retained feature has between one
    and three elements.  It is made of the first three, in the order of
    the text, of the sentences whose score against the feature is
    strictly above 50 (whatever the configured threshold), or is the
    placeholder alone when no sentence qualifies.  The sentences are the
    pieces of the text between occurrences of [". "]: joined by [". "]
    they give the text back, and none of them contains [". "]. *)
Theorem justification_of_retained_feature
        features patent_text similarity_threshold feature :
  In feature
     (keys (compare_features features patent_text similarity_threshold)) ->
  let sentences := split ". " patent_text in
  let qualifying :=
    filter (fun s => (partial_ratio (lower feature) (lower s) >? 50)%Z)
           sentences in
  exists m,
    get feature (compare_features features patent_text similarity_threshold)
    = Some m /\
    (1 <= List.length (justification m) <= 3)%nat /\
    justification m = match qualifying with
                      | [] => [placeholder]
                      | _ :: _ => firstn 3 qualifying
                      end /\
    concat ". " sentences = patent_text /\
    Forall (fun s => contains ". " s = false) sentences.
Proof.
  intros Hin sentences qualifying.
  apply compare_features_keys in Hin.
  exists (entry feature patent_text).
  rewrite compare_features_get, Hin.
  split; [reflexivity|].
  assert (Hq : relevant_sentences partial_ratio feature patent_text
               = qualifying) by reflexivity.
  unfold Matcher.entry. cbn [justification]. rewrite Hq.
  repeat split.
  - destruct qualifying; [simpl; lia | apply firstn_3_bounds; discriminate].
  - destruct qualifying; [simpl; lia | apply firstn_3_bounds; discriminate].
  - apply split_join. discriminate.
  - apply split_pieces. discriminate.
Qed.

(** **** C9 *)






(** **** C10 *)

Lemma length_keys {V} (d : dict V) : List.length (keys d) = List.length d.
Proof. apply length_map. Qed.

Lemma compare_features_len features patent_text similarity_threshold :
  len (compare_features features patent_text similarity_threshold)
  = Z.of_nat
      (List.length
         (nodup string_dec
                (filter (fun x => (feature_score x patent_text
                                   >? similarity_threshold)%Z)
                        features))).
Proof.
  unfold len. f_equal. rewrite <- length_keys.
  assert (Hmem : forall x,
    In x (keys (compare_features features patent_text similarity_threshold))
    <-> In x (nodup string_dec
                    (filter (fun x => (feature_score x patent_text
                                       >? similarity_threshold)%Z)
                            features))).
  { intros x. rewrite compare_features_keys, retained_spec.
    rewrite nodup_In, filter_In, Z.gtb_gt. reflexivity. }
  apply Nat.le_antisymm; apply NoDup_incl_length.
  - apply compare_features_NoDup.
  - intros x. apply Hmem.
  - apply NoDup_nodup.
  - intros x. apply Hmem.
Qed.


End WithScorer.

(** *** The theorems above, run on an example *)

Example justification_of_retained_feature_run :
  In "red widget"
     (keys (Matcher.compare_features
              App.contains_ratio ["red widget"; "blue gear"]
              "A Red widget. It has a BLUE gear. Other" 40))
  /\
  exists m,
    get "red widget"
        (Matcher.compare_features
           App.contains_ratio ["red widget"; "blue gear"]
           "A Red widget. It has a BLUE gear. Other" 40)
    = Some m /\
    justification m = ["A Red widget"].
Proof.
  split; [vm_compute; auto|].
  destruct (justification_of_retained_feature
              App.contains_ratio ["red widget"; "blue gear"]
              "A Red widget. It has a BLUE gear. Other" 40 "red widget")
    as (m & Hget & _ & Hj & _); [vm_compute; auto|].
  exists m. split; [exact Hget | exact Hj].
Defined.




End MatcherFacts.

(** ** The application *)

Module AppFacts.
Import PyStr PyDict Matcher App PyStrFacts PyDictFacts MatcherFacts.

Lemma fetched_app (l1 l2 : list event) :
  fetched (l1 ++ l2) = (fetched l1 ++ fetched l2)%list.
Proof. apply flat_map_app. Qed.

Lemma scored_app (l1 l2 : list event) :
  scored (l1 ++ l2) = (scored l1 ++ scored l2)%list.
Proof. apply flat_map_app. Qed.

Lemma network_calls_app (l1 l2 : list event) :
  network_calls (l1 ++ l2) = (network_calls l1 ++ network_calls l2)%list.
Proof. apply filter_app. Qed.

Lemma subseq_refl {A} (l : list A) : subseq l l.
Proof. induction l; constructor; assumption. Qed.

Lemma subseq_nil_l {A} (l : list A) : subseq [] l.
Proof. induction l; constructor; assumption. Qed.

Lemma subseq_firstn {A} (n : nat) (l : list A) : subseq (firstn n l) l.
Proof.
  revert n; induction l as [|a l IH]; intros [|n]; simpl.
  - constructor.
  - constructor.
  - apply subseq_nil_l.
  - apply subseq_take, IH.
Qed.

Lemma subseq_trans {A} (l1 l2 l3 : list A) :
  subseq l1 l2 -> subseq l2 l3 -> subseq l1 l3.
Proof.
  intros H12 H23. revert l1 H12.
  induction H23 as [|x l2 l3 H23 IH|x l2 l3 H23 IH]; intros l1 H12.
  - exact H12.
  - constructor. now apply IH.
  - inversion H12; subst.
    + constructor. now apply IH.
    + apply subseq_take. now apply IH.
Qed.

Lemma strip_empty_of_empty : strip "" = "".
Proof. reflexivity. Qed.

Lemma truthy_spec (s : string) : truthy s = true <-> s <> "".
Proof. destruct s; simpl; split; congruence. Qed.

Lemma slice_to_nonneg {A} (n : Z) (xs : list A) :
  (0 <= n)%Z ->
  slice_to n xs
  = firstn (Z.to_nat (Z.min (Z.of_nat (List.length xs)) n)) xs.
Proof.
  intros Hn. unfold slice_to.
  destruct (n <? 0)%Z eqn:E; [apply Z.ltb_lt in E; lia|].
  destruct (Z.le_ge_cases (Z.of_nat (List.length xs)) n) as [Hle|Hge].
  - rewrite Z.min_l by lia. rewrite Nat2Z.id.
    rewrite firstn_all. apply firstn_all2. lia.
  - now rewrite Z.min_r by lia.
Qed.

Section WithWorld.

Variable partial_ratio : string -> string -> Z.
Variable serpapi :
  list event -> PyDict.dict string -> exn + option (list patent).
Variable web : list event -> string -> PyDict.dict string -> exn + page.

#[local] Abbreviation get_patent_results := (get_patent_results serpapi).
#[local] Abbreviation scrape_patent_details := (scrape_patent_details web).
#[local] Abbreviation analyse := (analyse partial_ratio web).
#[local] Abbreviation search_best_matching_patents :=
  (search_best_matching_patents partial_ratio serpapi web).
#[local] Abbreviation on_submit := (on_submit partial_ratio serpapi web).
#[local] Abbreviation compare_features := (compare_features partial_ratio).

(** *** Retrieval *)

Lemma get_patent_results_run (query api_key : string) (log : list event) :
  get_patent_results query api_key log =
  match serpapi log (search_params query api_key) with
  | inl e =>
      (inr [],
       (log ++ [GoogleSearchCall (search_params query api_key);
                StError ("Error in API search: " ++ str_exn e)])%list)
  | inr (Some organic_results) =>
      (inr organic_results,
       (log ++ [GoogleSearchCall (search_params query api_key)])%list)
  | inr None =>
      (inr [], (log ++ [GoogleSearchCall (search_params query api_key)])%list)
  end.
Proof.
  unfold App.get_patent_results, try_except, bind, google_search, emit, ret,
    search_params.
  destruct (serpapi log _) as [e|[rs|]]; try reflexivity.
  now rewrite <- app_assoc.
Qed.

Lemma get_patent_results_total (query api_key : string) (log : list event) :
  exists patents evs,
    get_patent_results query api_key log = (inr patents, (log ++ evs)%list)
    /\ fetched evs = [] /\ scored evs = []
    /\ network_calls evs = [GoogleSearchCall (search_params query api_key)].
Proof.
  rewrite get_patent_results_run.
  destruct (serpapi log _) as [e|[rs|]]; eexists; eexists;
    (split; [reflexivity|]); repeat split.
Qed.

(** *** Scraping *)

Lemma scrape_patent_details_run (url : string) (log : list event) :
  exists text,
    scrape_patent_details url log
    = (inr text, (log ++ [RequestsGet url user_agent])%list).
Proof.
  unfold App.scrape_patent_details, try_except, bind, requests_get_soup,
    ret, raise, user_agent.
  destruct (web log url _) as [e|soup]; [eauto|].
  destruct (meta_dc_description soup) as [[content|]|]; eauto.
Qed.

(** *** The analysis loop *)

Lemma bind_run {A B} (m : py A) (k : A -> py B) (log log' : list event)
      (a : A) :
  m log = (inr a, log') -> bind m k log = k a log'.
Proof. unfold bind. now intros ->. Qed.

Lemma linked_cons (p : patent) (rest : list patent) :
  linked (p :: rest)
  = if truthy (get_default "link" "" p)
    then get_default "link" "" p :: linked rest
    else linked rest.
Proof. reflexivity. Qed.

(** What a run of the loop over [rest] does: it never raises, it fetches
    and scores the candidates that have a link, one after the other, and
    it appends to [best_patents] records of candidates with enough matched
    features, in the order of [rest].  The progress bar is given
    [(i + 1) / min n max_patents] and so on. *)
Lemma analyse_run (features : list string)
      (similarity_threshold min_feature_matches max_patents n : Z)
      (rest : list patent) :
  forall (i : Z) (best_patents : list record) (log : list event),
  exists extra evs,
    analyse features similarity_threshold min_feature_matches max_patents
            n i rest best_patents log
    = (inr (best_patents ++ extra)%list, (log ++ evs)%list)
    /\ fetched evs = linked rest
    /\ scored evs = linked rest
    /\ network_calls evs
       = map (fun link => RequestsGet link user_agent) (linked rest)
    /\ subseq (map title_link extra) (map candidate rest)
    /\ Forall (fun r : record =>
                 (len (snd r) >= min_feature_matches)%Z /\
                 exists patent_text,
                   snd r = compare_features features patent_text
                                            similarity_threshold)
              extra
    /\ Forall (fun nd : Z * Z =>
                 (i < fst nd <= i + Z.of_nat (List.length rest))%Z
                 /\ snd nd = Z.min n max_patents)
              (progress_values evs).
Proof.
  induction rest as [|p rest IH]; intros i best_patents log.
  - exists [], []. cbn [App.analyse]. unfold ret. rewrite !app_nil_r.
    repeat split; constructor.
  - assert (Hshift :
      forall evs,
        Forall (fun nd : Z * Z =>
                  (i + 1 < fst nd <= i + 1 + Z.of_nat (List.length rest))%Z
                  /\ snd nd = Z.min n max_patents)
               (progress_values evs) ->
        Forall (fun nd : Z * Z =>
                  (i < fst nd <= i + Z.of_nat (List.length (p :: rest)))%Z
                  /\ snd nd = Z.min n max_patents)
               ((i + 1, Z.min n max_patents)%Z :: progress_values evs)).
    { intros evs Hp. cbn [List.length]. constructor.
      - cbn [fst snd]. lia.
      - eapply Forall_impl; [|exact Hp]. intros nd. cbn beta. lia. }
    cbn [App.analyse]. cbn [bind emit]. rewrite linked_cons.
    destruct (truthy (get_default "link" "" p)) eqn:Hlink; cbn [negb].
    + destruct (scrape_patent_details_run
                  (get_default "link" "" p)
                  ((log ++ [StatusText
                              ("Analyzing patent " ++ str_of_Z (i + 1) ++ "/"
                               ++ str_of_Z (Z.min n max_patents) ++ "...")])
                     ++ [ProgressValue (i + 1) (Z.min n max_patents)])%list)
        as [patent_text Hscrape].
      rewrite (bind_run _ _ _ _ _ Hscrape). cbn [bind emit].
      destruct (len (compare_features features patent_text
                                      similarity_threshold)
                >=? min_feature_matches)%Z eqn:Hlen.
      * edestruct IH as (extra & evs & Hrun & Hf & Hs & Hn & Hsub & Hall & Hp).
        rewrite Hrun. eexists (_ :: extra), (_ :: _ :: _ :: _ :: evs).
        split; [rewrite <- !app_assoc; reflexivity|].
        cbn [fetched scored network_calls progress_values
                     flat_map filter is_network app map].
        fold (fetched evs) (scored evs) (network_calls evs)
             (progress_values evs).
        rewrite Hf, Hs, Hn.
        split; [reflexivity|]. split; [reflexivity|]. split; [reflexivity|].
        split; [now apply subseq_take|]. split; [|now apply Hshift].
        constructor; [|exact Hall]. cbn [snd]. split; [|eauto].
        apply Z.geb_le in Hlen. lia.
      * edestruct IH as (extra & evs & Hrun & Hf & Hs & Hn & Hsub & Hall & Hp).
        rewrite Hrun. exists extra. eexists (_ :: _ :: _ :: _ :: evs).
        split; [rewrite <- !app_assoc; reflexivity|].
        cbn [fetched scored network_calls progress_values
                     flat_map filter is_network app map].
        fold (fetched evs) (scored evs) (network_calls evs)
             (progress_values evs).
        rewrite Hf, Hs, Hn.
        split; [reflexivity|]. split; [reflexivity|]. split; [reflexivity|].
        split; [now apply subseq_skip|]. split; [exact Hall|].
        now apply Hshift.
    + edestruct IH as (extra & evs & Hrun & Hf & Hs & Hn & Hsub & Hall & Hp).
      rewrite Hrun. exists extra. eexists (_ :: _ :: evs).
      split; [rewrite <- !app_assoc; reflexivity|].
      cbn [fetched scored network_calls progress_values
                   flat_map filter is_network app map].
      fold (fetched evs) (scored evs) (network_calls evs)
           (progress_values evs).
      split; [exact Hf|]. split; [exact Hs|]. split; [exact Hn|].
      split; [now apply subseq_skip|]. split; [exact Hall|].
      now apply Hshift.
Qed.

Lemma subseq_map {A B} (f : A -> B) (l1 l2 : list A) :
  subseq l1 l2 -> subseq (map f l1) (map f l2).
Proof. induction 1; simpl; constructor; assumption. Qed.

Lemma subseq_slice_to {A} (n : Z) (xs : list A) : subseq (slice_to n xs) xs.
Proof. unfold slice_to. destruct (n <? 0)%Z; apply subseq_firstn. Qed.

(** A run of [search_best_matching_patents], given what the retrieval
    returned. *)
Lemma search_run (new_invention : string) (features : list string)
      (api_key : string)
      (similarity_threshold min_feature_matches max_patents : Z)
      (log log1 : list event) (patents : list patent) :
  get_patent_results new_invention api_key log = (inr patents, log1) ->
  exists best_patents evs,
    search_best_matching_patents new_invention features api_key
      similarity_threshold min_feature_matches max_patents log
    = (inr best_patents, (log1 ++ evs)%list)
    /\ fetched evs = linked (slice_to max_patents patents)
    /\ scored evs = linked (slice_to max_patents patents)
    /\ network_calls evs
       = map (fun link => RequestsGet link user_agent)
             (linked (slice_to max_patents patents))
    /\ subseq (map title_link best_patents)
              (map candidate (slice_to max_patents patents))
    /\ Forall (fun r : record =>
                 (len (snd r) >= min_feature_matches)%Z /\
                 exists patent_text,
                   snd r = compare_features features patent_text
                                            similarity_threshold)
              best_patents.
Proof.
  intros Hget. unfold App.search_best_matching_patents.
  rewrite (bind_run _ _ _ _ _ Hget). cbn [bind emit].
  edestruct (analyse_run features similarity_threshold min_feature_matches
                         max_patents (Z.of_nat (List.length patents))
                         (slice_to max_patents patents) 0%Z [])
    as (extra & evs & Hrun & Hf & Hs & Hn & Hsub & Hall & _).
  rewrite (bind_run _ _ _ _ _ Hrun). cbn [bind emit ret app].
  exists extra. eexists (_ :: _ :: evs ++ [_; _])%list.
  split; [rewrite <- !app_assoc; reflexivity|].
  cbn [fetched scored network_calls flat_map filter is_network app].
  fold (fetched (evs ++ [ProgressEmpty; StatusEmpty]))
       (scored (evs ++ [ProgressEmpty; StatusEmpty]))
       (network_calls (evs ++ [ProgressEmpty; StatusEmpty])).
  rewrite fetched_app, scored_app, network_calls_app.
  cbn [fetched scored network_calls flat_map filter is_network app].
  rewrite !app_nil_r.
  repeat split; assumption.
Qed.

Lemma get_patent_results_log (query api_key : string)
      (log log1 : list event) (patents : list patent) :
  get_patent_results query api_key log = (inr patents, log1) ->
  exists evs,
    log1 = (log ++ evs)%list /\ fetched evs = [] /\ scored evs = [].
Proof.
  intros Hget.
  destruct (get_patent_results_total query api_key log)
    as (patents' & evs & Hrun & Hf & Hs & _).
  rewrite Hrun in Hget. injection Hget as _ <-. eauto.
Qed.

Lemma progress_values_app (l1 l2 : list event) :
  progress_values (l1 ++ l2) = (progress_values l1 ++ progress_values l2)%list.
Proof. apply flat_map_app. Qed.

(** With [max_patents] not negative, every value given to the progress bar
    is a fraction in (0, 1]: the denominator is never zero, and Streamlit,
    which rejects values outside [0, 1], accepts all of them. *)
Lemma search_progress_in_range (new_invention : string)
      (features : list string) (api_key : string)
      (similarity_threshold min_feature_matches max_patents : Z)
      (log : list event) :
  (0 <= max_patents)%Z ->
  exists best_patents evs,
    search_best_matching_patents new_invention features api_key
      similarity_threshold min_feature_matches max_patents log
    = (inr best_patents, (log ++ evs)%list)
    /\ Forall (fun nd : Z * Z => (0 < fst nd <= snd nd)%Z)
              (progress_values evs).
Proof.
  intros HM.
  destruct (get_patent_results_total new_invention api_key log)
    as (patents & evs0 & Hget & _ & _ & _).
  assert (Hp0 : progress_values evs0 = []).
  { rewrite get_patent_results_run in Hget.
    destruct (serpapi log _) as [e|[rs|]]; injection Hget as _ Hlog;
      apply app_inv_head in Hlog; now subst evs0. }
  unfold App.search_best_matching_patents.
  rewrite (bind_run _ _ _ _ _ Hget). cbn [bind emit].
  edestruct (analyse_run features similarity_threshold min_feature_matches
                         max_patents (Z.of_nat (List.length patents))
                         (slice_to max_patents patents) 0%Z [])
    as (extra & evs & Hrun & _ & _ & _ & _ & _ & Hp).
  rewrite (bind_run _ _ _ _ _ Hrun). cbn [bind emit ret app].
  exists extra. eexists (evs0 ++ _ :: _ :: evs ++ [_; _])%list.
  split; [rewrite <- !app_assoc; reflexivity|].
  rewrite progress_values_app, Hp0. cbn [app progress_values flat_map].
  fold (progress_values (evs ++ [ProgressEmpty; StatusEmpty])).
  rewrite progress_values_app. cbn [progress_values flat_map app].
  rewrite app_nil_r.
  eapply Forall_impl; [|exact Hp]. intros [num den]. cbn [fst snd].
  rewrite slice_to_nonneg by exact HM. rewrite length_firstn.
  intros [Hrange ->]. lia.
Qed.

(** **** C2 *)

(** C2.  With [M = max_patents] not negative and [N] candidates
    retrieved, the search fetches and scores, in order, exactly the
    candidates that have a link among the first [min N M] retrieved ones.
    The list is cut to [M] before the candidates without a link are left
    out, so at most [M] candidates are fetched, and an empty or missing
    link is never fetched nor scored. *)
Theorem search_fetches_linked_candidates_of_truncated_list
        (new_invention : string) (features : list string) (api_key : string)
        (similarity_threshold min_feature_matches max_patents : Z)
        (log log1 : list event) (patents : list patent) :
  get_patent_results new_invention api_key log = (inr patents, log1) ->
  (0 <= max_patents)%Z ->
  let considered :=
    firstn (Z.to_nat (Z.min (Z.of_nat (List.length patents)) max_patents))
           patents in
  let with_link :=
    filter truthy (map (get_default "link" "") considered) in
  exists best_patents log',
    search_best_matching_patents new_invention features api_key
      similarity_threshold min_feature_matches max_patents log
    = (inr best_patents, log')
    /\ fetched log' = (fetched log ++ with_link)%list
    /\ scored log' = (scored log ++ with_link)%list
    /\ (Z.of_nat (List.length with_link) <= max_patents)%Z
    /\ Forall (fun link => link <> "") with_link.
Proof.
  intros Hget HM considered with_link.
  destruct (search_run new_invention features api_key similarity_threshold
                       min_feature_matches max_patents log log1 patents Hget)
    as (best_patents & evs & Hrun & Hf & Hs & _).
  destruct (get_patent_results_log _ _ _ _ _ Hget) as (evs0 & -> & Hf0 & Hs0).
  rewrite slice_to_nonneg in Hf, Hs by exact HM.
  exists best_patents. eexists. split; [exact Hrun|].
  rewrite !fetched_app, !scored_app, Hf0, Hs0, Hf, Hs, !app_nil_r.
  repeat split.
  - unfold with_link.
    etransitivity; [apply inj_le, filter_length_le|].
    rewrite length_map. unfold considered. rewrite length_firstn. lia.
  - apply Forall_forall. intros link Hin.
    apply filter_In in Hin as [_ Ht]. now apply truthy_spec.
Qed.

(** **** C4 *)

(** C4.  Every record returned by the search has at least
    [min_feature_matches] matched features, its mapping being the one
    [compare_features] computed for that candidate, and the records are
    the retrieved candidates with some left out: their order is the order
    of retrieval. *)
Theorem search_keeps_enough_matches_in_retrieval_order
        (new_invention : string) (features : list string) (api_key : string)
        (similarity_threshold min_feature_matches max_patents : Z)
        (log log1 : list event) (patents : list patent) :
  get_patent_results new_invention api_key log = (inr patents, log1) ->
  exists best_patents log',
    search_best_matching_patents new_invention features api_key
      similarity_threshold min_feature_matches max_patents log
    = (inr best_patents, log')
    /\ Forall (fun r : record =>
                 let '(_, _, matches) := r in
                 (len matches >= min_feature_matches)%Z /\
                 exists patent_text,
                   matches = compare_features features patent_text
                                              similarity_threshold)
              best_patents
    /\ subseq (map (fun r : record => let '(title, link, _) := r in
                                      (title, link))
                   best_patents)
              (map (fun p => (get_default "title" "Untitled Patent" p,
                              get_default "link" "" p))
                   patents).
Proof.
  intros Hget.
  destruct (search_run new_invention features api_key similarity_threshold
                       min_feature_matches max_patents log log1 patents Hget)
    as (best_patents & evs & Hrun & _ & _ & _ & Hsub & Hall).
  exists best_patents. eexists. split; [exact Hrun|]. split.
  - eapply Forall_impl; [|exact Hall]. now intros [[title link] matches].
  - replace (map _ best_patents) with (map title_link best_patents)
      by (apply map_ext; now intros [[title link] matches]).
    eapply subseq_trans; [exact Hsub|].
    apply (subseq_map candidate), subseq_slice_to.
Qed.

(** **** C5 *)

Lemma strip_truthy_nonempty (s : string) :
  truthy (strip s) = true -> s <> "".
Proof. intros H ->. discriminate. Qed.

(** C5.  Whatever the web answers, [scrape_patent_details] returns a
    string and does not raise, and the string is never empty.  When the
    fetch or the parse fails, or the [meta] tag has no [content], the
    result is the error text with the message of the exception; otherwise
    it is the three sections joined by blank lines, or the fixed sentence
    ["No detailed description available."] when that text is blank after
    trimming.  Hence the search does not raise either: whatever happens to
    single documents, every candidate of the slice that has a link is
    scored. *)
Theorem scrape_patent_details_never_raises (url : string) (log : list event) :
  (exists text,
      scrape_patent_details url log
      = (inr text, (log ++ [RequestsGet url user_agent])%list)
      /\ text <> ""
      /\ match web log url user_agent with
         | inl e => text = "Error scraping patent details: " ++ str_exn e
         | inr soup =>
             match meta_dc_description soup with
             | Some None => text = "Error scraping patent details: 'content'"
             | abstract_tag =>
                 let abstract := match abstract_tag with
                                 | Some (Some content) => content
                                 | _ => ""
                                 end in
                 let description := match div_description soup with
                                    | Some t => strip t
                                    | None => ""
                                    end in
                 let claims := match section_claims soup with
                               | Some t => strip t
                               | None => ""
                               end in
                 let full_text :=
                   abstract ++ nl ++ nl ++ description ++ nl ++ nl ++ claims in
                 (strip full_text = "" ->
                  text = "No detailed description available.")
                 /\ (strip full_text <> "" -> text = full_text)
             end
         end)
  /\
  (forall new_invention features api_key similarity_threshold
          min_feature_matches max_patents,
      exists patents log1 best_patents log',
        get_patent_results new_invention api_key log = (inr patents, log1)
        /\ search_best_matching_patents new_invention features api_key
             similarity_threshold min_feature_matches max_patents log
           = (inr best_patents, log')
        /\ scored log'
           = (scored log
              ++ filter truthy
                   (map (get_default "link" "")
                        (slice_to max_patents patents)))%list).
Proof.
  split.
  - unfold App.scrape_patent_details, try_except, bind, requests_get_soup,
      ret, raise. fold user_agent.
    destruct (web log url user_agent) as [e|soup].
    + eexists. split; [reflexivity|]. split; [discriminate | reflexivity].
    + destruct (meta_dc_description soup) as [[content|]|].
      * eexists. split; [reflexivity|].
        destruct (truthy (strip _)) eqn:E.
        -- split; [now apply strip_truthy_nonempty|].
           split; [|reflexivity].
           intros H. rewrite H in E. discriminate.
        -- split; [discriminate|]. split; [reflexivity|].
           intros H. apply truthy_spec in H. congruence.
      * eexists. split; [reflexivity|]. split; [discriminate | reflexivity].
      * eexists. split; [reflexivity|].
        destruct (truthy (strip _)) eqn:E.
        -- split; [now apply strip_truthy_nonempty|].
           split; [|reflexivity].
           intros H. rewrite H in E. discriminate.
        -- split; [discriminate|]. split; [reflexivity|].
           intros H. apply truthy_spec in H. congruence.
  - intros new_invention features api_key similarity_threshold
           min_feature_matches max_patents.
    destruct (get_patent_results_total new_invention api_key log)
      as (patents & evs0 & Hget & _ & Hs0 & _).
    destruct (search_run new_invention features api_key similarity_threshold
                         min_feature_matches max_patents log _ patents Hget)
      as (best_patents & evs' & Hrun & _ & Hs & _).
    exists patents, (log ++ evs0)%list, best_patents,
      ((log ++ evs0) ++ evs')%list.
    split; [exact Hget|]. split; [exact Hrun|].
    rewrite !scored_app, Hs0, Hs, app_nil_r. reflexivity.
Qed.

(** **** C6 *)

(** C6.  When the call to the search provider fails, [get_patent_results]
    does not raise: it shows the error to the user and returns the empty
    list. *)
Theorem get_patent_results_degrades_to_no_results
        (query api_key : string) (log : list event) (e : exn) :
  serpapi log (search_params query api_key) = inl e ->
  get_patent_results query api_key log
  = (inr [],
     (log ++ [GoogleSearchCall (search_params query api_key);
              StError ("Error in API search: " ++ str_exn e)])%list).
Proof. intros H. now rewrite get_patent_results_run, H. Qed.

(** **** C7 *)

Lemma parse_features_blank (features_text : string) :
  strip features_text = "" -> parse_features features_text = [].
Proof. unfold parse_features. now intros ->. Qed.

Lemma truthy_false (s : string) : s = "" -> truthy s = false.
Proof. now intros ->. Qed.

(** C7, as amended.  On submission, when the API key, the description or
    the features text is empty, or no feature is left once blank lines are
    dropped and the lines trimmed, the handler shows one error message
    and stops: nothing is sent to the network, fetched or scored.  The
    key and the description are tested for emptiness only: made of white
    space, they pass. *)
Theorem on_submit_rejects_missing_input (f : form) (log : list event) :
  submit_button f = true ->
  api_key f = "" \/ new_invention f = "" \/ features_text f = "" \/
  parse_features (features_text f) = [] ->
  exists msg,
    on_submit f log = (inr tt, (log ++ [StError msg])%list)
    /\ network_calls (log ++ [StError msg]) = network_calls log
    /\ fetched (log ++ [StError msg]) = fetched log
    /\ scored (log ++ [StError msg]) = scored log.
Proof.
  intros Hsubmit Hmissing. unfold App.on_submit. rewrite Hsubmit.
  assert (Hlog : forall msg,
             network_calls (log ++ [StError msg]) = network_calls log
             /\ fetched (log ++ [StError msg]) = fetched log
             /\ scored (log ++ [StError msg]) = scored log).
  { intros msg. rewrite network_calls_app, fetched_app, scored_app.
    cbn. now rewrite !app_nil_r. }
  destruct (truthy (api_key f)) eqn:Hkey; cbn [negb];
    [|eexists; split; [reflexivity | apply Hlog]].
  destruct (truthy (new_invention f)) eqn:Hinv; cbn [negb];
    [|eexists; split; [reflexivity | apply Hlog]].
  destruct (truthy (features_text f)) eqn:Htext; cbn [negb];
    [|eexists; split; [reflexivity | apply Hlog]].
  destruct (parse_features (features_text f)) eqn:Hparse;
    [eexists; split; [reflexivity | apply Hlog]|].
  exfalso.
  destruct Hmissing as [H|[H|[H|H]]];
    try (apply truthy_false in H; congruence); discriminate.
Qed.

End WithWorld.

(** *** The theorems above, run on an example *)

Example search_fetches_linked_candidates_of_truncated_list_run :
  get_patent_results sample_serpapi "a widget" "key" []
  = (inr three_candidates,
     [GoogleSearchCall (search_params "a widget" "key")])
  /\ (0 <= 2)%Z
  /\ exists best_patents log',
      search_best_matching_patents contains_ratio sample_serpapi sample_web
        "a widget" ["red widget"] "key" 40 1 2 []
      = (inr best_patents, log')
      /\ fetched log' = ["http://a"]
      /\ scored log' = ["http://a"].
Proof.
  split; [reflexivity|]. split; [lia|].
  destruct (search_fetches_linked_candidates_of_truncated_list
              contains_ratio sample_serpapi sample_web
              "a widget" ["red widget"] "key" 40 1 2 []
              [GoogleSearchCall (search_params "a widget" "key")]
              three_candidates)
    as (best_patents & log' & Hrun & Hf & Hs & _); [reflexivity | lia |].
  exists best_patents, log'. repeat split; assumption.
Defined.

Example search_keeps_enough_matches_in_retrieval_order_run :
  get_patent_results sample_serpapi "a widget" "key" []
  = (inr three_candidates,
     [GoogleSearchCall (search_params "a widget" "key")])
  /\ exists best_patents log',
      search_best_matching_patents contains_ratio sample_serpapi sample_web
        "a widget" ["red widget"] "key" 40 1 3 []
      = (inr best_patents, log')
      /\ Forall (fun r : record =>
                   let '(_, _, matches) := r in (len matches >= 1)%Z)
                best_patents.
Proof.
  split; [reflexivity|].
  destruct (search_keeps_enough_matches_in_retrieval_order
              contains_ratio sample_serpapi sample_web
              "a widget" ["red widget"] "key" 40 1 3 []
              [GoogleSearchCall (search_params "a widget" "key")]
              three_candidates)
    as (best_patents & log' & Hrun & Hall & _); [reflexivity|].
  exists best_patents, log'. split; [exact Hrun|].
  eapply Forall_impl; [|exact Hall]. intros [[title link] matches] [H _].
  exact H.
Defined.

Example get_patent_results_degrades_to_no_results_run :
  failing_serpapi [] (search_params "a widget" "key")
  = inl (Exception "Connection refused")
  /\ get_patent_results failing_serpapi "a widget" "key" []
     = (inr [],
        [GoogleSearchCall (search_params "a widget" "key");
         StError "Error in API search: Connection refused"]).
Proof.
  split; [reflexivity|].
  apply (get_patent_results_degrades_to_no_results
           failing_serpapi "a widget" "key" [] (Exception "Connection refused")).
  reflexivity.
Defined.

Example on_submit_rejects_missing_input_run :
  submit_button (Form true "key" 40 3 10 "a widget" (" " ++ nl ++ nl)) = true
  /\ parse_features (" " ++ nl ++ nl) = []
  /\ exists msg,
      on_submit contains_ratio sample_serpapi sample_web
                (Form true "key" 40 3 10 "a widget" (" " ++ nl ++ nl)) []
      = (inr tt, [StError msg]).
Proof.
  split; [reflexivity|]. split; [reflexivity|].
  destruct (on_submit_rejects_missing_input
              contains_ratio sample_serpapi sample_web
              (Form true "key" 40 3 10 "a widget" (" " ++ nl ++ nl)) [])
    as (msg & Hrun & _); [reflexivity | right; right; right; reflexivity |].
  exists msg. exact Hrun.
Defined.

(** The handler tests the key and the description for emptiness only: a
    description made of one space is sent to the provider. *)
Example whitespace_only_description_is_searched :
  network_calls
    (snd (on_submit contains_ratio failing_serpapi sample_web
                    (Form true "key" 40 3 10 " " "red widget") []))
  = [GoogleSearchCall (search_params " " "key")].
Proof. reflexivity. Qed.

(** A blank description, here three spaces, is not rejected: the handler
    goes on to the provider and fetches the candidates. *)
Lemma blank_description_is_sent_to_the_provider :
  submit_button (Form true "key" 40 3 10 "   " "red widget") = true
  /\ strip (new_invention (Form true "key" 40 3 10 "   " "red widget")) = ""
  /\ network_calls
       (snd (on_submit contains_ratio sample_serpapi sample_web
                       (Form true "key" 40 3 10 "   " "red widget") []))
     = [GoogleSearchCall (search_params "   " "key");
        RequestsGet "http://a" user_agent;
        RequestsGet "http://b" user_agent].
Proof. repeat split. Qed.

End AppFacts.

(** ** JSON *)

Module PyJsonFacts.
Import PyStr PyDict PyJson PyStrFacts PyDictFacts.

(** *** Induction on values *)

Section ValueInduction.

Variable P : pyval -> Prop.
Hypothesis P_none : P PNone.
Hypothesis P_bool : forall b, P (PBool b).
Hypothesis P_int : forall n, P (PInt n).
Hypothesis P_str : forall s, P (PStr s).
Hypothesis P_list : forall items, Forall P items -> P (PList items).
Hypothesis P_dict :
  forall items, Forall (fun kv => P (snd kv)) items -> P (PDict items).

Fixpoint pyval_induction (v : pyval) : P v :=
  match v with
  | PNone => P_none
  | PBool b => P_bool b
  | PInt n => P_int n
  | PStr s => P_str s
  | PList items =>
      P_list items
        ((fix all (l : list pyval) : Forall P l :=
            match l with
            | [] => Forall_nil P
            | x :: l' => Forall_cons x (pyval_induction x) (all l')
            end) items)
  | PDict items =>
      P_dict items
        ((fix all (l : list (string * pyval))
            : Forall (fun kv => P (snd kv)) l :=
            match l with
            | [] => Forall_nil _
            | kv :: l' =>
                Forall_cons kv (pyval_induction (snd kv)) (all l')
            end) items)
  end.

End ValueInduction.

(** *** String literals *)

Lemma scan_escape_char (c : ascii) (tail str rest : string) :
  scan_string tail = Some (str, rest) ->
  scan_string (escape_char c ++ tail) = Some (String c str, rest).
Proof.
  intros H.
  destruct c as [[] [] [] [] [] [] [] []]; cbn; rewrite H; reflexivity.
Qed.

Lemma scan_escape (s rest : string) :
  scan_string (escape s ++ String dquote rest) = Some (s, rest).
Proof.
  induction s as [|c s IH]; [reflexivity|].
  cbn [escape]. rewrite append_assoc. now apply scan_escape_char.
Qed.

Lemma encode_string_append (s rest : string) :
  encode_string s ++ rest = String dquote (escape s ++ String dquote rest).
Proof.
  unfold encode_string, char. cbn [append]. now rewrite append_assoc.
Qed.

(** *** Numbers *)

Lemma to_int_normal (n : Z) : Decimal.norm (Z.to_int n) = Z.to_int n.
Proof. rewrite <- DecimalZ.to_of. now rewrite DecimalZ.of_to. Qed.

Lemma to_int_canonical (n : Z) :
  match Z.to_int n with
  | Decimal.Pos u => canonical u
  | Decimal.Neg u => Decimal.nzhead u = u /\ u <> Decimal.Nil
  end.
Proof.
  pose proof (to_int_normal n) as H.
  destruct (Z.to_int n) as [u|u]; cbn [Decimal.norm] in H.
  - injection H as H. unfold Decimal.unorm in H. unfold canonical.
    destruct (Decimal.nzhead u) eqn:E;
      [left; now rewrite <- H | right; split; congruence ..].
  - destruct (Decimal.nzhead u) eqn:E;
      [discriminate | injection H as H; split; congruence ..].
Qed.

Lemma ends_number_not_float (rest : string) :
  ends_number rest = true -> starts_float rest = false.
Proof.
  destruct rest as [|c rest]; [reflexivity|].
  unfold ends_number. intros H. apply andb_true_iff in H as [H _].
  now apply negb_true_iff in H.
Qed.

Lemma scan_digits_stop (rest : string) :
  ends_number rest = true -> scan_digits rest = (Decimal.Nil, rest).
Proof.
  destruct rest as [|c rest]; [reflexivity|].
  unfold ends_number. intros H. apply andb_true_iff in H as [_ H].
  cbn [scan_digits]. now destruct (digit_of_char c).
Qed.

Lemma scan_digits_string (u : Decimal.uint) (rest : string) :
  ends_number rest = true ->
  scan_digits (NilEmpty.string_of_uint u ++ rest) = (u, rest).
Proof.
  intros Hrest.
  induction u as [|u IH|u IH|u IH|u IH|u IH|u IH|u IH|u IH|u IH|u IH];
    [now apply scan_digits_stop | ..];
    cbn [NilEmpty.string_of_uint append scan_digits];
    change (digit_of_char _) with (Some Decimal.D0) ||
    change (digit_of_char _) with (Some Decimal.D1) ||
    change (digit_of_char _) with (Some Decimal.D2) ||
    change (digit_of_char _) with (Some Decimal.D3) ||
    change (digit_of_char _) with (Some Decimal.D4) ||
    change (digit_of_char _) with (Some Decimal.D5) ||
    change (digit_of_char _) with (Some Decimal.D6) ||
    change (digit_of_char _) with (Some Decimal.D7) ||
    change (digit_of_char _) with (Some Decimal.D8) ||
    change (digit_of_char _) with (Some Decimal.D9);
    now rewrite IH.
Qed.

Lemma nzhead_fixed_not_D0 (u : Decimal.uint) :
  Decimal.nzhead (Decimal.D0 u) <> Decimal.D0 u.
Proof. apply DecimalFacts.nzhead_nonzero. Qed.

Lemma scan_natural_string (u : Decimal.uint) (rest : string) :
  canonical u ->
  ends_number rest = true ->
  scan_natural (NilZero.string_of_uint u ++ rest) = Some (u, rest).
Proof.
  intros [->|[Hnz Hnil]] Hrest; [reflexivity|].
  destruct u as [|u|u|u|u|u|u|u|u|u|u];
    [congruence | now apply nzhead_fixed_not_D0 in Hnz | ..];
    unfold NilZero.string_of_uint;
    match goal with
    | |- scan_natural (NilEmpty.string_of_uint ?d ++ rest) = _ =>
        pose proof (scan_digits_string d rest Hrest) as Hd
    end;
    cbn [NilEmpty.string_of_uint append] in *;
    unfold scan_natural; rewrite Hd; reflexivity.
Qed.

Lemma string_of_uint_head (u : Decimal.uint) :
  exists c r,
    NilZero.string_of_uint u = String c r
    /\ number_head c = true /\ Ascii.eqb c "-" = false.
Proof.
  destruct u; cbn; eauto.
Qed.

Lemma scan_int_string (n : Z) (rest : string) :
  ends_number rest = true ->
  scan_int (str_of_Z n ++ rest) = Some (n, rest).
Proof.
  intros Hrest. unfold str_of_Z.
  pose proof (to_int_canonical n) as Hc.
  pose proof (DecimalZ.of_to n) as Hn.
  destruct (Z.to_int n) as [u|u]; cbn [NilZero.string_of_int].
  - destruct (string_of_uint_head u) as (c & r & Hs & _ & Hminus).
    pose proof (scan_natural_string u rest Hc Hrest) as Hscan.
    rewrite Hs in *. cbn [append] in *. unfold scan_int.
    rewrite Hminus, Hscan, (ends_number_not_float _ Hrest).
    now rewrite Hn.
  - assert (Hcan : canonical u) by now right.
    pose proof (scan_natural_string u rest Hcan Hrest) as Hscan.
    cbn [append]. unfold scan_int.
    change (Ascii.eqb "-" "-") with true. cbv iota.
    rewrite Hscan, (ends_number_not_float _ Hrest).
    now rewrite Hn.
Qed.

Lemma str_of_Z_head (n : Z) :
  exists c r, str_of_Z n = String c r /\ number_head c = true.
Proof.
  unfold str_of_Z. destruct (Z.to_int n) as [u|u]; cbn [NilZero.string_of_int].
  - destruct (string_of_uint_head u) as (c & r & Hs & Hh & _). eauto.
  - eauto.
Qed.

Lemma number_head_not_ws (c : ascii) : number_head c = true -> is_ws c = false.
Proof.
  destruct c as [[] [] [] [] [] [] [] []]; cbn; congruence.
Qed.

Lemma parse_value_number (fuel : nat) (c : ascii) (r : string) :
  number_head c = true ->
  parse_value (S fuel) (String c r)
  = match scan_int (String c r) with
    | Some (n, rest) => Some (PInt n, rest)
    | None => None
    end.
Proof.
  destruct c as [[] [] [] [] [] [] [] []]; cbn; try discriminate; reflexivity.
Qed.

Lemma parse_value_int (fuel : nat) (n : Z) (rest : string) :
  ends_number rest = true ->
  parse_value (S fuel) (str_of_Z n ++ rest) = Some (PInt n, rest).
Proof.
  intros Hrest. pose proof (scan_int_string n rest Hrest) as Hscan.
  destruct (str_of_Z_head n) as (c & r & Hs & Hh).
  rewrite Hs in *. cbn [append] in *.
  now rewrite (parse_value_number fuel c _ Hh), Hscan.
Qed.

(** *** White space and first characters *)

Lemma skip_ws_spaces (level : nat) (s : string) :
  skip_ws (spaces level ++ s) = skip_ws s.
Proof. induction level as [|level IH]; [reflexivity | exact IH]. Qed.

Lemma skip_ws_newline_indent (level : nat) (s : string) :
  skip_ws (newline_indent level ++ s) = skip_ws s.
Proof. unfold newline_indent. cbn. apply skip_ws_spaces. Qed.

Lemma skip_ws_head (c : ascii) (s : string) :
  is_ws c = false -> skip_ws (String c s) = String c s.
Proof. cbn [skip_ws]. now intros ->. Qed.

Lemma number_head_not_bracket (c : ascii) :
  number_head c = true -> Ascii.eqb c "]" = false.
Proof.
  destruct c as [[] [] [] [] [] [] [] []]; cbn; congruence.
Qed.

Lemma encode_head (level : nat) (v : pyval) :
  exists c r,
    encode level v = String c r
    /\ is_ws c = false /\ Ascii.eqb c "]" = false.
Proof.
  destruct v as [|[]|n|s|[|x xs]|[|[k x] kvs]]; cbn [encode];
    try (eexists; eexists; split; [reflexivity | split; reflexivity]).
  destruct (str_of_Z_head n) as (c & r & Hs & Hh).
  exists c, r. split; [exact Hs|].
  split; [now apply number_head_not_ws | now apply number_head_not_bracket].
Qed.

Lemma skip_ws_encode (level : nat) (v : pyval) (s : string) :
  skip_ws (encode level v ++ s) = encode level v ++ s.
Proof.
  destruct (encode_head level v) as (c & r & -> & Hc & _).
  cbn [append]. now apply skip_ws_head.
Qed.

Lemma ends_number_more_items enc level xs rest :
  ends_number (more_items enc level xs ++ rest) = true.
Proof. destruct xs; reflexivity. Qed.

Lemma ends_number_more_members enc level kvs rest :
  ends_number (more_members enc level kvs ++ rest) = true.
Proof. destruct kvs as [|[k y] kvs]; reflexivity. Qed.

(** *** Dictionaries built from pairs *)

Lemma fold_set_fresh {V} (l : list (string * V)) :
  forall d,
    NoDup (map fst (d ++ l)) ->
    fold_left (fun d kv => PyDict.set (fst kv) (snd kv) d) l d
    = (d ++ l)%list.
Proof.
  induction l as [|[k v] l IH]; intros d Hnd; cbn [fold_left fst snd].
  - now rewrite app_nil_r.
  - assert (Hfresh : PyDict.get k d = None).
    { apply not_in_keys_get. unfold keys.
      rewrite map_app in Hnd. cbn [map fst] in Hnd.
      apply NoDup_remove_2 in Hnd. intros Hin. apply Hnd.
      apply in_or_app. now left. }
    rewrite (set_fresh _ _ _ Hfresh), IH.
    + now rewrite <- app_assoc.
    + now rewrite <- app_assoc.
Qed.

Lemma dict_of_pairs_NoDup (pairs : list (string * pyval)) :
  NoDup (map fst pairs) -> dict_of_pairs pairs = pairs.
Proof. intros H. unfold dict_of_pairs. now rewrite fold_set_fresh. Qed.

(** *** Containers *)

Lemma parse_elements_items (level : nat) (rest : string) (xs : list pyval) :
  Forall round_trips xs ->
  forall (x : pyval) (acc : list pyval) (fuel : nat),
    round_trips x ->
    fold_right (fun x n => S (size x + n)) 0 (x :: xs) <= fuel ->
    parse_elements fuel acc
      (encode (S level) x ++ more_items (encode (S level)) level xs ++ rest)
    = Some (PList (rev acc ++ x :: xs), rest).
Proof.
  induction 1 as [|y l Hy Hl IH]; intros x acc fuel Hx Hfuel;
    (destruct fuel as [|fuel]; [cbn in Hfuel; lia|]);
    cbn [fold_right] in Hfuel; cbn [parse_elements];
    rewrite Hx by (lia || apply ends_number_more_items).
  - cbn [more_items]. rewrite append_assoc, skip_ws_newline_indent.
    cbn. reflexivity.
  - cbn [more_items]. cbn [append].
    rewrite skip_ws_head by reflexivity.
    change (Ascii.eqb "," "]") with false.
    change (Ascii.eqb "," ",") with true. cbv iota.
    rewrite !append_assoc, skip_ws_newline_indent, skip_ws_encode.
    rewrite IH by (assumption || cbn [fold_right]; lia).
    cbn [rev]. now rewrite <- app_assoc.
Qed.

Lemma parse_members_items (level : nat) (rest : string)
      (kvs : list (string * pyval)) :
  Forall (fun kv => round_trips (snd kv)) kvs ->
  forall (k : string) (x : pyval) (acc : list (string * pyval)) (fuel : nat),
    round_trips x ->
    fold_right (fun kv n => S (size (snd kv) + n)) 0 ((k, x) :: kvs) <= fuel ->
    parse_members fuel acc
      (escape k ++ String dquote
         (String ":" (String " "
            (encode (S level) x
             ++ more_members (encode (S level)) level kvs ++ rest))))
    = Some (PDict (dict_of_pairs (rev acc ++ (k, x) :: kvs)), rest).
Proof.
  induction 1 as [|[k' y] l Hy Hl IH]; intros k x acc fuel Hx Hfuel;
    (destruct fuel as [|fuel]; [cbn in Hfuel; lia|]);
    cbn [fold_right snd] in Hfuel; cbn [parse_members];
    rewrite scan_escape;
    rewrite skip_ws_head by reflexivity;
    change (Ascii.eqb ":" ":") with true; cbv iota;
    change (skip_ws (String " " ?s)) with (skip_ws s);
    rewrite skip_ws_encode;
    rewrite Hx by (lia || apply ends_number_more_members).
  - cbn [more_members]. rewrite append_assoc, skip_ws_newline_indent.
    cbn. reflexivity.
  - cbn [more_members]. cbn [append].
    rewrite skip_ws_head by reflexivity.
    change (Ascii.eqb "," "}") with false.
    change (Ascii.eqb "," ",") with true. cbv iota.
    rewrite !append_assoc, skip_ws_newline_indent.
    rewrite encode_string_append.
    rewrite skip_ws_head by reflexivity.
    change (Ascii.eqb dquote dquote) with true. cbv iota.
    cbn [snd] in Hy. cbn [append]. rewrite !append_assoc.
    rewrite IH by (assumption || cbn [fold_right snd]; lia).
    cbn [rev]. now rewrite <- app_assoc.
Qed.

(** *** Every well-formed value is read back *)

Lemma well_formed_list (items : list pyval) :
  Forall (fun x => well_formed x -> round_trips x) items ->
  well_formed (PList items) ->
  Forall round_trips items.
Proof.
  induction 1 as [|x l Hx Hl IH]; cbn; intros Hwf; constructor.
  - now apply Hx.
  - now apply IH.
Qed.

Lemma well_formed_dict (items : list (string * pyval)) :
  Forall (fun kv => well_formed (snd kv) -> round_trips (snd kv)) items ->
  well_formed (PDict items) ->
  Forall (fun kv => round_trips (snd kv)) items.
Proof.
  intros Hall [_ Hwf]. induction Hall as [|x l Hx Hl IH]; constructor.
  - apply Hx, Hwf.
  - apply IH, Hwf.
Qed.

Theorem parse_encode (v : pyval) : well_formed v -> round_trips v.
Proof.
  induction v as [|b|n|s|items IH|items IH] using pyval_induction;
    intros Hwf fuel level rest Hfuel Hrest;
    (destruct fuel as [|fuel]; [cbn in Hfuel; lia|]).
  - reflexivity.
  - destruct b; reflexivity.
  - now apply parse_value_int.
  - cbn [encode]. rewrite encode_string_append. cbn [parse_value].
    change (Ascii.eqb dquote dquote) with true. cbv iota.
    now rewrite scan_escape.
  - pose proof (well_formed_list items IH Hwf) as Hall.
    destruct items as [|x xs]; [reflexivity|].
    inversion Hall as [|? ? Hx Hxs]; subst.
    cbn [encode]. cbn [append parse_value].
    change (Ascii.eqb "[" dquote) with false.
    change (Ascii.eqb "[" "{") with false.
    change (Ascii.eqb "[" "[") with true. cbv iota.
    rewrite !append_assoc, skip_ws_newline_indent, skip_ws_encode.
    pose proof (parse_elements_items level rest xs Hxs x [] fuel Hx) as Hp.
    destruct (encode_head (S level) x) as (c & r & Hc & _ & Hclose).
    rewrite Hc in *. cbn [append] in *. rewrite Hclose.
    apply Hp. cbn [size] in Hfuel. cbn [fold_right] in *. lia.
  - pose proof (well_formed_dict items IH Hwf) as Hall.
    destruct items as [|[k x] kvs]; [reflexivity|].
    inversion Hall as [|? ? Hx Hxs]; subst. cbn [snd] in Hx.
    cbn [encode]. cbn [append parse_value].
    change (Ascii.eqb "{" dquote) with false.
    change (Ascii.eqb "{" "{") with true. cbv iota.
    rewrite !append_assoc, skip_ws_newline_indent, encode_string_append.
    rewrite skip_ws_head by reflexivity.
    change (Ascii.eqb dquote "}") with false.
    change (Ascii.eqb dquote dquote) with true. cbv iota.
    cbn [append]. rewrite !append_assoc.
    rewrite (parse_members_items level rest kvs Hxs k x [] fuel Hx)
      by (cbn [size] in Hfuel; cbn [fold_right snd] in *; lia).
    cbn [rev app]. rewrite dict_of_pairs_NoDup; [reflexivity | apply Hwf].
Qed.

(** *** The fuel that [loads] takes is enough *)

Lemma length_more_items (level : nat) (xs : list pyval) :
  Forall (fun x => forall level, size x <= String.length (encode level x)) xs ->
  fold_right (fun x n => S (size x + n)) 0 xs
  <= String.length (more_items (encode (S level)) level xs).
Proof.
  induction 1 as [|y l Hy Hl IH]; cbn [fold_right more_items]; [lia|].
  rewrite !length_append. specialize (Hy (S level)). cbn [String.length]. lia.
Qed.

Lemma length_more_members (level : nat) (kvs : list (string * pyval)) :
  Forall (fun kv =>
            forall level, size (snd kv) <= String.length (encode level (snd kv)))
         kvs ->
  fold_right (fun kv n => S (size (snd kv) + n)) 0 kvs
  <= String.length (more_members (encode (S level)) level kvs).
Proof.
  induction 1 as [|[k y] l Hy Hl IH]; cbn [fold_right more_members]; [lia|].
  rewrite !length_append. specialize (Hy (S level)). cbn [snd] in *.
  cbn [String.length]. lia.
Qed.

Lemma size_le_length (v : pyval) :
  forall level, size v <= String.length (encode level v).
Proof.
  induction v as [|b|n|s|items IH|items IH] using pyval_induction;
    intros level.
  - cbn. lia.
  - destruct b; cbn; lia.
  - cbn [size encode]. destruct (str_of_Z_head n) as (c & r & -> & _).
    cbn. lia.
  - cbn. lia.
  - destruct items as [|x xs]; [cbn; lia|].
    inversion IH as [|? ? Hx Hxs]; subst.
    cbn [size encode fold_right]. rewrite !length_append.
    pose proof (length_more_items level xs Hxs).
    specialize (Hx (S level)). unfold newline_indent.
    cbn [String.length]. lia.
  - destruct items as [|[k x] kvs]; [cbn; lia|].
    inversion IH as [|? ? Hx Hxs]; subst.
    cbn [size encode fold_right snd]. rewrite !length_append.
    pose proof (length_more_members level kvs Hxs).
    specialize (Hx (S level)). cbn [snd] in Hx. unfold newline_indent.
    cbn [String.length]. lia.
Qed.

(** [json.loads(json.dumps(v, indent=2))] is [v]. *)
Theorem loads_dumps (v : pyval) : well_formed v -> loads (dumps v) = Some v.
Proof.
  intros Hwf. unfold loads, dumps.
  assert (Hskip : skip_ws (encode 0 v) = encode 0 v).
  { destruct (encode_head 0 v) as (c & r & -> & Hc & _).
    now apply skip_ws_head. }
  assert (Hsize : size v <= S (String.length (encode 0 v))).
  { pose proof (size_le_length v 0). lia. }
  pose proof (parse_encode v Hwf _ 0 "" Hsize eq_refl) as Hparse.
  rewrite append_nil_r in Hparse. now rewrite Hskip, Hparse.
Qed.

End PyJsonFacts.

(** ** The JSON export *)

Module ExportFacts.
Import PyStr PyDict PyJson Matcher App.
Import PyStrFacts PyDictFacts PyJsonFacts MatcherFacts AppFacts.

Lemma well_formed_strings (l : list string) : well_formed (PList (map PStr l)).
Proof. induction l as [|s l IH]; cbn; [exact I | split; [exact I | exact IH]]. Qed.

Lemma well_formed_info (m : match_info) : well_formed (info_value m).
Proof.
  unfold info_value. cbn [well_formed map fst snd fold_right].
  split.
  - constructor; [cbn; intuition discriminate|].
    constructor; [intros [] | constructor].
  - split; [exact I|]. split; [apply well_formed_strings | exact I].
Qed.

Lemma keys_matches_value (matches : dict match_info) :
  map fst (map (fun kv => (fst kv, info_value (snd kv))) matches)
  = keys matches.
Proof. unfold keys. rewrite map_map. reflexivity. Qed.

Lemma well_formed_matches (matches : dict match_info) :
  NoDup (keys matches) -> well_formed (matches_value matches).
Proof.
  intros Hnd. unfold matches_value. cbn [well_formed].
  rewrite keys_matches_value. split; [exact Hnd|].
  clear Hnd. induction matches as [|[k m] matches IH]; cbn; [exact I|].
  split; [apply (well_formed_info m) | exact IH].
Qed.

Lemma well_formed_export (best_patents : list record) :
  Forall (fun r : record => NoDup (keys (snd r))) best_patents ->
  well_formed (export_value best_patents).
Proof.
  unfold export_value. cbn [well_formed].
  induction 1 as [|[[title link] matches] l Hr Hl IH]; cbn [map fold_right];
    [exact I|].
  split; [|exact IH].
  cbn [well_formed map fst snd fold_right]. split.
  - constructor; [cbn; intuition discriminate|].
    constructor; [cbn; intuition discriminate|].
    constructor; [intros [] | constructor].
  - split; [exact I|]. split; [exact I|].
    split; [now apply well_formed_matches | exact I].
Qed.

Lemma as_str_list_strings (l : list string) :
  as_str_list (map PStr l) = Some l.
Proof. induction l as [|s l IH]; cbn; [reflexivity | now rewrite IH]. Qed.

Lemma info_of_info_value (m : match_info) :
  info_of_value (info_value m) = Some m.
Proof.
  destruct m as [n l]. cbn. now rewrite as_str_list_strings.
Qed.

Lemma matches_of_matches_value (matches : dict match_info) :
  matches_of_items (map (fun kv => (fst kv, info_value (snd kv))) matches)
  = Some matches.
Proof.
  induction matches as [|[k m] matches IH]; [reflexivity|].
  cbn [map matches_of_items fst snd].
  now rewrite info_of_info_value, IH.
Qed.

Lemma import_export (best_patents : list record) :
  import_value (export_value best_patents) = Some best_patents.
Proof.
  unfold export_value, import_value.
  induction best_patents as [|[[title link] matches] l IH]; [reflexivity|].
  cbn [map records_of_values]. rewrite IH.
  unfold record_of_value, matches_value. cbn [PyDict.get String.eqb Ascii.eqb].
  cbn. now rewrite matches_of_matches_value.
Qed.

(** **** C8 *)

(** C8.  Parsing the exported JSON text gives back the exported value,
    an array of objects with the keys [patent_title], [patent_link] and
    [matches], and from it the same titles, links, scores and
    justification lists, for every result set whose mappings are
    dictionaries (no key twice). *)
Theorem export_round_trip (best_patents : list record) :
  Forall (fun r : record => let '(_, _, matches) := r in
                            NoDup (keys matches))
         best_patents ->
  loads (result_json best_patents) = Some (export_value best_patents)
  /\ import_value (export_value best_patents) = Some best_patents.
Proof.
  intros Hnd. split; [|apply import_export].
  apply loads_dumps, well_formed_export.
  eapply Forall_impl; [|exact Hnd]. now intros [[title link] matches].
Qed.

Example export_round_trip_run :
  let best_patents : list record :=
    [(String dquote "Widget", "http://a",
      [("red widget", MatchInfo 100 ["A red widget"; "x\y"]);
       ("Red widget", MatchInfo 87 [placeholder])]);
     ("Untitled Patent", "http://b", [])] in
  Forall (fun r : record => let '(_, _, matches) := r in
                            NoDup (keys matches))
         best_patents
  /\ loads (result_json best_patents) = Some (export_value best_patents)
  /\ import_value (export_value best_patents) = Some best_patents.
Proof.
  intros best_patents.
  assert (Hnd : Forall (fun r : record => let '(_, _, matches) := r in
                                          NoDup (keys matches))
                       best_patents).
  { repeat constructor; cbn; intuition discriminate. }
  split; [exact Hnd|]. apply (export_round_trip best_patents Hnd).
Defined.

(** The results of a search can always be exported and read back. *)
Corollary search_results_round_trip
          (partial_ratio : string -> string -> Z)
          (serpapi : list event -> dict string -> exn + option (list patent))
          (web : list event -> string -> dict string -> exn + page)
          (new_invention : string) (features : list string)
          (api_key : string)
          (similarity_threshold min_feature_matches max_patents : Z)
          (log : list event) :
  exists best_patents log',
    search_best_matching_patents partial_ratio serpapi web
      new_invention features api_key similarity_threshold
      min_feature_matches max_patents log
    = (inr best_patents, log')
    /\ loads (result_json best_patents) = Some (export_value best_patents)
    /\ import_value (export_value best_patents) = Some best_patents.
Proof.
  destruct (get_patent_results_total serpapi new_invention api_key log)
    as (patents & evs & Hget & _).
  destruct (search_run partial_ratio serpapi web new_invention features
                       api_key similarity_threshold min_feature_matches
                       max_patents log _ patents Hget)
    as (best_patents & evs' & Hrun & _ & _ & _ & _ & Hall).
  exists best_patents. eexists. split; [exact Hrun|].
  split; [|apply import_export].
  apply loads_dumps, well_formed_export.
  eapply Forall_impl; [|exact Hall].
  intros r [_ [patent_text ->]]. apply compare_features_NoDup.
Qed.

End ExportFacts.


(** ** More on feature matching *)

Module MatcherMore.
Import PyStr PyDict Matcher PyStrFacts PyDictFacts MatcherFacts.

Lemma filter_filter {A} (p q : A -> bool) (l : list A) :
  filter p (filter q l) = filter (fun x => q x && p x) l.
Proof.
  induction l as [|a l IH]; [reflexivity|]. cbn [filter].
  destruct (q a); cbn [filter andb]; [destruct (p a)|]; now rewrite IH.
Qed.

Lemma filter_all {A} (p : A -> bool) (l : list A) :
  (forall x, p x = true) -> filter p l = l.
Proof.
  intros H. induction l as [|a l IH]; [reflexivity|].
  cbn [filter]. now rewrite H, IH.
Qed.

Lemma mem_keys {V} (d : dict V) (k : string) :
  existsb (String.eqb k) (keys d) = true <-> In k (keys d).
Proof.
  rewrite existsb_exists. split.
  - intros (x & Hx & E). now apply String.eqb_eq in E as ->.
  - intros H. exists k. split; [exact H | apply String.eqb_refl].
Qed.

Lemma keys_set_present {V} (k : string) (v : V) (d : dict V) :
  In k (keys d) -> keys (set k v d) = keys d.
Proof.
  induction d as [|[k' v'] d IH]; cbn; [tauto|].
  destruct (String.eqb k k') eqn:E.
  - apply String.eqb_eq in E as ->. reflexivity.
  - apply String.eqb_neq in E. intros [H|H]; [congruence|].
    cbn. f_equal. now apply IH.
Qed.

Lemma keys_set_absent {V} (k : string) (v : V) (d : dict V) :
  ~ In k (keys d) -> keys (set k v d) = (keys d ++ [k])%list.
Proof.
  intros H. apply not_in_keys_get in H. rewrite (set_fresh _ _ _ H).
  unfold keys. now rewrite map_app.
Qed.

Section WithScorer.

Variable partial_ratio : string -> string -> Z.

#[local] Abbreviation compare_features := (compare_features partial_ratio).
#[local] Abbreviation compare_step := (compare_step partial_ratio).
#[local] Abbreviation entry := (entry partial_ratio).
#[local] Abbreviation feature_score := (feature_score partial_ratio).

Implicit Types (features : list string) (feature patent_text : string)
         (similarity_threshold : Z) (matches : dict match_info).

(** The keys after the loop: those that were there, then the new
    retained features in the order of their first occurrence. *)
Lemma fold_keys patent_text similarity_threshold features :
  forall matches,
    keys (fold_left (compare_step patent_text similarity_threshold)
                    features matches)
    = (keys matches
       ++ filter (fun y => negb (existsb (String.eqb y) (keys matches)))
            (first_occurrences
               (filter (fun x => (feature_score x patent_text
                                  >? similarity_threshold)%Z)
                       features)))%list.
Proof.
  induction features as [|a features IH]; intros matches.
  - cbn. now rewrite app_nil_r.
  - cbn [fold_left filter]. rewrite IH, compare_step_eq.
    destruct (feature_score a patent_text >? similarity_threshold)%Z;
      [|reflexivity].
    cbn [first_occurrences filter].
    destruct (existsb (String.eqb a) (keys matches)) eqn:Ha; cbn [negb].
    + apply mem_keys in Ha. rewrite (keys_set_present _ _ _ Ha).
      f_equal. rewrite filter_filter. apply filter_ext_in.
      intros y _. destruct (String.eqb y a) eqn:E; [|reflexivity].
      apply String.eqb_eq in E as ->.
      apply mem_keys in Ha. now rewrite Ha.
    + assert (Hnot : ~ In a (keys matches)).
      { intros H. apply mem_keys in H. congruence. }
      rewrite (keys_set_absent _ _ _ Hnot), <- app_assoc. cbn [app].
      do 2 f_equal. rewrite filter_filter. apply filter_ext.
      intros y. rewrite existsb_app. cbn [existsb].
      rewrite orb_false_r, negb_orb. apply andb_comm.
Qed.

(** X1.  The keys of the mapping are the submitted features that score
    above the threshold, each once, in the order in which they were first
    submitted. *)
Theorem compare_features_keys_in_submission_order
        features patent_text similarity_threshold :
  keys (compare_features features patent_text similarity_threshold)
  = first_occurrences
      (filter (fun x => (partial_ratio (lower x) (lower patent_text)
                         >? similarity_threshold)%Z)
              features).
Proof.
  unfold Matcher.compare_features. rewrite fold_keys. cbn [keys empty map app].
  apply filter_all. reflexivity.
Qed.

(** X2.  Raising the threshold only removes entries: an entry found
    with the higher threshold is found, unchanged, with the lower one, and
    the mapping does not get longer. *)
Theorem compare_features_threshold_monotone
        features patent_text (low high : Z) :
  (low <= high)%Z ->
  (forall feature m,
      get feature (compare_features features patent_text high) = Some m ->
      get feature (compare_features features patent_text low) = Some m)
  /\ (len (compare_features features patent_text high)
      <= len (compare_features features patent_text low))%Z.
Proof.
  intros Hle.
  assert (Hget : forall feature m,
    get feature (compare_features features patent_text high) = Some m ->
    get feature (compare_features features patent_text low) = Some m).
  { intros feature m. rewrite !compare_features_get.
    destruct (retained partial_ratio high patent_text features feature)
      eqn:Hhigh; [|discriminate].
    apply retained_spec in Hhigh as [Hin Hgt].
    assert (Hlow : retained partial_ratio low patent_text features feature
                   = true) by (apply retained_spec; split; [exact Hin | lia]).
    now rewrite Hlow. }
  split; [exact Hget|].
  unfold len. apply inj_le. rewrite <- !length_keys.
  apply NoDup_incl_length; [apply compare_features_NoDup|].
  intros k Hk. apply in_keys_get in Hk as [m Hm].
  apply in_keys_get. exists m. now apply Hget.
Qed.

Lemma fold_submitted_again patent_text similarity_threshold features :
  forall again,
    incl again features ->
    fold_left (compare_step patent_text similarity_threshold) again
              (compare_features features patent_text similarity_threshold)
    = compare_features features patent_text similarity_threshold.
Proof.
  induction again as [|a again IH]; intros Hincl; [reflexivity|].
  cbn [fold_left]. rewrite compare_step_eq.
  assert (Hin : In a features) by (apply Hincl; now left).
  assert (Hrest : incl again features)
    by (intros x Hx; apply Hincl; now right).
  destruct (feature_score a patent_text >? similarity_threshold)%Z eqn:Hgt;
    [|now apply IH].
  rewrite set_same_value; [now apply IH|].
  rewrite compare_features_get.
  assert (Hret : retained partial_ratio similarity_threshold patent_text
                          features a = true).
  { apply retained_spec. split; [exact Hin | now apply Z.gtb_gt]. }
  now rewrite Hret.
Qed.

(** X3.  Submitting again features that are already in the list changes
    nothing: neither the entries nor their order. *)
Theorem compare_features_ignores_resubmitted_features
        features again patent_text similarity_threshold :
  incl again features ->
  compare_features (features ++ again) patent_text similarity_threshold
  = compare_features features patent_text similarity_threshold.
Proof.
  intros Hincl. unfold Matcher.compare_features at 1.
  rewrite fold_left_app. now apply fold_submitted_again.
Qed.

(** X4.  The score stored for a feature is its score against the whole
    text, lower-cased on both sides, and it is above the threshold; the
    mapping has at most as many entries as features were submitted. *)
Theorem compare_features_stores_the_text_score
        features patent_text similarity_threshold feature m :
  get feature (compare_features features patent_text similarity_threshold)
  = Some m ->
  score m = partial_ratio (lower feature) (lower patent_text)
  /\ (score m > similarity_threshold)%Z
  /\ In feature features
  /\ (len (compare_features features patent_text similarity_threshold)
      <= Z.of_nat (List.length features))%Z.
Proof.
  intros Hget. rewrite compare_features_get in Hget.
  destruct (retained partial_ratio similarity_threshold patent_text
                     features feature) eqn:Hret; [|discriminate].
  injection Hget as <-. apply retained_spec in Hret as [Hin Hgt].
  split; [reflexivity|]. split; [exact Hgt|]. split; [exact Hin|].
  rewrite compare_features_len. apply inj_le.
  etransitivity; [apply NoDup_incl_length; [apply NoDup_nodup|]|].
  - intros x Hx. apply nodup_In in Hx. exact Hx.
  - apply filter_length_le.
Qed.

End WithScorer.

Example compare_features_threshold_monotone_run :
  (40 <= 90)%Z
  /\ (len (Matcher.compare_features App.contains_ratio
             ["red widget"; "green"] "A red widget. x" 90)
      <= len (Matcher.compare_features App.contains_ratio
                ["red widget"; "green"] "A red widget. x" 40))%Z.
Proof.
  split; [lia|].
  apply (compare_features_threshold_monotone
           App.contains_ratio ["red widget"; "green"] "A red widget. x" 40 90).
  lia.
Defined.

Example compare_features_ignores_resubmitted_features_run :
  incl ["blue gear"; "red widget"] ["red widget"; "blue gear"]
  /\ Matcher.compare_features App.contains_ratio
       (["red widget"; "blue gear"] ++ ["blue gear"; "red widget"])
       "A red widget. With a blue gear" 40
     = Matcher.compare_features App.contains_ratio
         ["red widget"; "blue gear"] "A red widget. With a blue gear" 40.
Proof.
  assert (H : incl ["blue gear"; "red widget"] ["red widget"; "blue gear"]).
  { intros x [<-|[<-|[]]]; cbn; auto. }
  split; [exact H|].
  apply (compare_features_ignores_resubmitted_features
           App.contains_ratio ["red widget"; "blue gear"]
           ["blue gear"; "red widget"] "A red widget. With a blue gear" 40 H).
Defined.

Example compare_features_stores_the_text_score_run :
  get "red widget"
      (Matcher.compare_features App.contains_ratio ["red widget"]
                                "A Red Widget" 40)
  = Some (MatchInfo 100 ["A Red Widget"])
  /\ (100 > 40)%Z.
Proof.
  split; [reflexivity|].
  apply (compare_features_stores_the_text_score
           App.contains_ratio ["red widget"] "A Red Widget" 40 "red widget"
           (MatchInfo 100 ["A Red Widget"])).
  reflexivity.
Defined.

End MatcherMore.

(** ** More on strings: trimming *)

Module PyStrMore.
Import PyStr PyStrFacts.

Lemma lstrip_head (s : string) : head_not_space (lstrip s) = true.
Proof.
  induction s as [|c s IH]; [reflexivity|]. cbn [lstrip].
  destruct (is_space c) eqn:E; [exact IH|]. cbn. now rewrite E.
Qed.

Lemma lstrip_id (s : string) : head_not_space s = true -> lstrip s = s.
Proof.
  destruct s as [|c s]; [reflexivity|]. cbn.
  now destruct (is_space c).
Qed.

Lemma rstrip_cons (c : ascii) (s : string) :
  is_space c = false -> exists r, rstrip (String c s) = String c r.
Proof.
  intros E. cbn [rstrip]. destruct (rstrip s); [rewrite E|]; eauto.
Qed.

Lemma rstrip_head (s : string) :
  head_not_space s = true -> head_not_space (rstrip s) = true.
Proof.
  destruct s as [|c s]; [reflexivity|]. cbn [head_not_space].
  intros E. apply negb_true_iff in E.
  destruct (rstrip_cons c s E) as [r ->]. cbn. now rewrite E.
Qed.

Lemma rstrip_unfold (c : ascii) (s : string) :
  rstrip (String c s)
  = match rstrip s with
    | EmptyString => if is_space c then EmptyString else String c EmptyString
    | String _ _ => String c (rstrip s)
    end.
Proof. cbn [rstrip]. now destruct (rstrip s). Qed.

Lemma rstrip_idem (s : string) : rstrip (rstrip s) = rstrip s.
Proof.
  induction s as [|c s IH]; [reflexivity|]. rewrite rstrip_unfold.
  destruct (rstrip s) as [|d r] eqn:E.
  - destruct (is_space c) eqn:Ec; [reflexivity|]. cbn. now rewrite Ec.
  - rewrite rstrip_unfold, IH. reflexivity.
Qed.

(** Trimming twice is trimming once. *)
Lemma strip_idem (s : string) : strip (strip s) = strip s.
Proof.
  unfold strip.
  rewrite (lstrip_id (rstrip (lstrip s)))
    by apply rstrip_head, lstrip_head.
  apply rstrip_idem.
Qed.

Lemma lstrip_all_space (s : string) :
  lstrip s = "" <-> all_space s = true.
Proof.
  induction s as [|c s IH]; [split; reflexivity|]. cbn.
  destruct (is_space c); cbn; [exact IH | split; discriminate].
Qed.

Lemma rstrip_empty (s : string) :
  head_not_space s = true -> rstrip s = "" -> s = "".
Proof.
  destruct s as [|c s]; [reflexivity|]. cbn [head_not_space].
  intros E. apply negb_true_iff in E.
  destruct (rstrip_cons c s E) as [r ->]. discriminate.
Qed.

(** A text trims to nothing exactly when it is white space only. *)
Lemma strip_blank (s : string) : strip s = "" <-> all_space s = true.
Proof.
  rewrite <- lstrip_all_space. unfold strip. split.
  - apply rstrip_empty, lstrip_head.
  - now intros ->.
Qed.

Lemma all_space_app (a b : string) :
  all_space (a ++ b) = all_space a && all_space b.
Proof.
  induction a as [|c a IH]; [reflexivity|]. cbn.
  now rewrite IH, andb_assoc.
Qed.

Lemma strip_not_blank (c : ascii) (s : string) :
  is_space c = false -> strip (String c s) <> "".
Proof.
  intros E H. apply strip_blank in H. cbn in H. now rewrite E in H.
Qed.

(** What trimming keeps is a part of the text. *)
Lemma contains_lstrip (needle s : string) :
  contains needle (lstrip s) = true -> contains needle s = true.
Proof.
  induction s as [|c s IH]; [trivial|]. cbn [lstrip].
  destruct (is_space c); [|trivial].
  intros H. cbn [contains]. rewrite (IH H). apply orb_true_r.
Qed.

Lemma rstrip_prefix (s : string) : exists w, s = rstrip s ++ w.
Proof.
  induction s as [|c s [w IH]]; [now exists ""|]. cbn [rstrip].
  destruct (rstrip s) as [|d r].
  - destruct (is_space c); [now exists (String c s) | now exists s].
  - exists w. rewrite IH at 1. reflexivity.
Qed.

Lemma contains_unfold (needle s : string) :
  contains needle s
  = prefix needle s
    || match s with
       | EmptyString => false
       | String _ s' => contains needle s'
       end.
Proof. destruct s; reflexivity. Qed.

Lemma contains_append (needle a w : string) :
  contains needle a = true -> contains needle (a ++ w) = true.
Proof.
  induction a as [|c a IH]; rewrite (contains_unfold needle); intros H.
  - rewrite orb_false_r in H. rewrite contains_unfold.
    now rewrite (prefix_extend _ _ w H).
  - apply orb_true_iff in H as [H|H].
    + rewrite contains_unfold. now rewrite (prefix_extend _ _ w H).
    + cbn [append]. rewrite contains_unfold, (IH H). apply orb_true_r.
Qed.

Lemma contains_rstrip (needle s : string) :
  contains needle (rstrip s) = true -> contains needle s = true.
Proof.
  intros H. destruct (rstrip_prefix s) as [w Hw]. rewrite Hw.
  now apply contains_append.
Qed.

Lemma contains_strip (needle s : string) :
  contains needle s = false -> contains needle (strip s) = false.
Proof.
  intros H. destruct (contains needle (strip s)) eqn:E; [|reflexivity].
  apply contains_rstrip, contains_lstrip in E. congruence.
Qed.

End PyStrMore.

(** ** More on the application *)

Module AppMore.
Import PyStr PyDict PyJson Matcher App.
Import PyStrFacts PyDictFacts MatcherFacts AppFacts PyStrMore.
Import PyJsonFacts ExportFacts.

Lemma scored_texts_app (l1 l2 : list event) :
  scored_texts (l1 ++ l2) = (scored_texts l1 ++ scored_texts l2)%list.
Proof. apply flat_map_app. Qed.

Lemma slice_to_nil {A} (n : Z) : slice_to n (@nil A) = [].
Proof. unfold slice_to. destruct (n <? 0)%Z; apply firstn_nil. Qed.

Section WithWorld.

Variable partial_ratio : string -> string -> Z.
Variable serpapi :
  list event -> PyDict.dict string -> exn + option (list patent).
Variable web : list event -> string -> PyDict.dict string -> exn + page.

#[local] Abbreviation get_patent_results := (get_patent_results serpapi).
#[local] Abbreviation scrape_patent_details := (scrape_patent_details web).
#[local] Abbreviation analyse := (analyse partial_ratio web).
#[local] Abbreviation search_best_matching_patents :=
  (search_best_matching_patents partial_ratio serpapi web).
#[local] Abbreviation on_submit := (on_submit partial_ratio serpapi web).
#[local] Abbreviation compare_features := (compare_features partial_ratio).

(** *** Which candidates the loop returns *)

(** The links and mappings of the records the loop adds are those of the
    scored documents whose mapping is long enough: nothing else is kept,
    nothing else is dropped. *)
Lemma analyse_results (features : list string)
      (similarity_threshold min_feature_matches max_patents n : Z)
      (rest : list patent) :
  forall (i : Z) (best_patents : list record) (log : list event),
  exists extra evs,
    analyse features similarity_threshold min_feature_matches max_patents
            n i rest best_patents log
    = (inr (best_patents ++ extra)%list, (log ++ evs)%list)
    /\ map fst (scored_texts evs) = linked rest
    /\ fetched evs = linked rest
    /\ map (fun r : record => (snd (fst r), snd r)) extra
       = map (fun lt => (fst lt,
                         compare_features features (snd lt)
                                          similarity_threshold))
             (filter (fun lt =>
                        (len (compare_features features (snd lt)
                                               similarity_threshold)
                         >=? min_feature_matches)%Z)
                     (scored_texts evs)).
Proof.
  induction rest as [|p rest IH]; intros i best_patents log.
  - exists [], []. cbn [App.analyse]. unfold ret. rewrite !app_nil_r.
    repeat split.
  - cbn [App.analyse]. cbn [bind emit]. rewrite linked_cons.
    destruct (truthy (get_default "link" "" p)) eqn:Hlink; cbn [negb].
    + destruct (scrape_patent_details_run
                  web (get_default "link" "" p)
                  ((log ++ [StatusText
                              ("Analyzing patent " ++ str_of_Z (i + 1) ++ "/"
                               ++ str_of_Z (Z.min n max_patents) ++ "...")])
                     ++ [ProgressValue (i + 1) (Z.min n max_patents)])%list)
        as [patent_text Hscrape].
      rewrite (bind_run _ _ _ _ _ Hscrape). cbn [bind emit].
      destruct (len (compare_features features patent_text
                                      similarity_threshold)
                >=? min_feature_matches)%Z eqn:Hlen.
      * edestruct IH as (extra & evs & Hrun & Hs & Hf & Hres).
        rewrite Hrun. eexists (_ :: extra), (_ :: _ :: _ :: _ :: evs).
        split; [rewrite <- !app_assoc; reflexivity|].
        cbn [fetched scored_texts flat_map app map fst snd filter].
        fold (fetched evs) (scored_texts evs).
        rewrite Hs, Hf, Hlen. cbn [map fst snd]. rewrite Hres.
        repeat split.
      * edestruct IH as (extra & evs & Hrun & Hs & Hf & Hres).
        rewrite Hrun. exists extra. eexists (_ :: _ :: _ :: _ :: evs).
        split; [rewrite <- !app_assoc; reflexivity|].
        cbn [fetched scored_texts flat_map app map fst snd filter].
        fold (fetched evs) (scored_texts evs).
        rewrite Hs, Hf, Hlen, Hres.
        repeat split.
    + edestruct IH as (extra & evs & Hrun & Hs & Hf & Hres).
      rewrite Hrun. exists extra. eexists (_ :: _ :: evs).
      split; [rewrite <- !app_assoc; reflexivity|].
      cbn [fetched scored_texts flat_map app map fst snd filter].
      fold (fetched evs) (scored_texts evs).
      repeat split; assumption.
Qed.

(** The same for a whole search. *)
Lemma search_results (new_invention : string) (features : list string)
      (api_key : string)
      (similarity_threshold min_feature_matches max_patents : Z)
      (log : list event) :
  exists patents log1 best_patents evs,
    get_patent_results new_invention api_key log = (inr patents, log1)
    /\ search_best_matching_patents new_invention features api_key
         similarity_threshold min_feature_matches max_patents log
       = (inr best_patents, (log ++ evs)%list)
    /\ map fst (scored_texts evs) = linked (slice_to max_patents patents)
    /\ fetched evs = linked (slice_to max_patents patents)
    /\ map (fun r : record => (snd (fst r), snd r)) best_patents
       = map (fun lt => (fst lt,
                         compare_features features (snd lt)
                                          similarity_threshold))
             (filter (fun lt =>
                        (len (compare_features features (snd lt)
                                               similarity_threshold)
                         >=? min_feature_matches)%Z)
                     (scored_texts evs)).
Proof.
  destruct (get_patent_results_total serpapi new_invention api_key log)
    as (patents & evs0 & Hget & Hf0 & Hs0 & _).
  assert (Hst0 : scored_texts evs0 = []).
  { rewrite get_patent_results_run in Hget.
    destruct (serpapi log _) as [e|[rs|]]; injection Hget as _ Hlog;
      apply app_inv_head in Hlog; now subst evs0. }
  unfold App.search_best_matching_patents.
  rewrite (bind_run _ _ _ _ _ Hget). cbn [bind emit].
  edestruct (analyse_results features similarity_threshold
                             min_feature_matches max_patents
                             (Z.of_nat (List.length patents))
                             (slice_to max_patents patents) 0%Z [])
    as (extra & evs & Hrun & Hs & Hf & Hres).
  rewrite (bind_run _ _ _ _ _ Hrun). cbn [bind emit ret app].
  exists patents, (log ++ evs0)%list, extra.
  eexists (evs0 ++ _ :: _ :: evs ++ [_; _])%list.
  split; [exact Hget|].
  split; [rewrite <- !app_assoc; reflexivity|].
  rewrite scored_texts_app, fetched_app, Hst0, Hf0.
  cbn [app scored_texts fetched flat_map].
  fold (scored_texts (evs ++ [ProgressEmpty; StatusEmpty]))
       (fetched (evs ++ [ProgressEmpty; StatusEmpty])).
  rewrite scored_texts_app, fetched_app.
  cbn [scored_texts fetched flat_map app]. rewrite !app_nil_r.
  repeat split; assumption.
Qed.

(** *** Retrieval *)

(** X5.  Whatever the provider does, [get_patent_results] calls it exactly
    once, with the query followed by [" site:patents.google.com"], the
    location and the key, and returns a list.  The provider's
    [organic_results] are passed on unchanged; an answer without that key
    gives the empty list and no message; an exception gives the empty list
    after one error message. *)
Theorem get_patent_results_calls_the_provider_once
        (query api_key : string) (log : list event) :
  exists patents shown,
    get_patent_results query api_key log
    = (inr patents,
       (log ++ GoogleSearchCall
                 [("q", (query ++ " site:patents.google.com")%string);
                  ("location", "United States");
                  ("api_key", api_key)] :: shown)%list)
    /\ match serpapi log [("q", query ++ " site:patents.google.com");
                          ("location", "United States");
                          ("api_key", api_key)] with
       | inl e =>
           patents = []
           /\ shown = [StError ("Error in API search: " ++ str_exn e)]
       | inr (Some organic_results) =>
           patents = organic_results /\ shown = []
       | inr None => patents = [] /\ shown = []
       end.
Proof.
  rewrite get_patent_results_run. fold (search_params query api_key).
  destruct (serpapi log (search_params query api_key)) as [e|[rs|]];
    eexists; eexists; (split; [reflexivity|]); split; reflexivity.
Qed.

(** *** The search *)

(** X6.  With [max_patents] not negative, a search contacts the provider
    once, then fetches the linked candidates among the first
    [max_patents] retrieved ones, one by one, each with the [User-Agent]
    header, and contacts nothing else. *)
Theorem search_network_calls
        (new_invention : string) (features : list string) (api_key : string)
        (similarity_threshold min_feature_matches max_patents : Z)
        (log : list event) :
  (0 <= max_patents)%Z ->
  exists patents log1 best_patents evs,
    get_patent_results new_invention api_key log = (inr patents, log1)
    /\ search_best_matching_patents new_invention features api_key
         similarity_threshold min_feature_matches max_patents log
       = (inr best_patents, (log ++ evs)%list)
    /\ network_calls evs
       = GoogleSearchCall
           [("q", new_invention ++ " site:patents.google.com");
            ("location", "United States");
            ("api_key", api_key)]
         :: map (fun link => RequestsGet link [("User-Agent", "Mozilla/5.0")])
                (filter truthy
                        (map (get_default "link" "")
                             (firstn (Z.to_nat max_patents) patents))).
Proof.
  intros HM.
  destruct (get_patent_results_total serpapi new_invention api_key log)
    as (patents & evs0 & Hget & _ & _ & Hn0).
  destruct (search_run partial_ratio serpapi web new_invention features
                       api_key similarity_threshold min_feature_matches
                       max_patents log _ patents Hget)
    as (best_patents & evs & Hrun & _ & _ & Hn & _).
  exists patents, (log ++ evs0)%list, best_patents, (evs0 ++ evs)%list.
  split; [exact Hget|]. split; [now rewrite app_assoc|].
  rewrite network_calls_app, Hn0, Hn. unfold slice_to.
  destruct (max_patents <? 0)%Z eqn:E; [apply Z.ltb_lt in E; lia|].
  reflexivity.
Qed.

(** X7.  When the provider fails, the search shows the error, fetches
    nothing and returns the empty list. *)
Theorem search_without_provider
        (new_invention : string) (features : list string) (api_key : string)
        (similarity_threshold min_feature_matches max_patents : Z)
        (log : list event) (e : exn) :
  serpapi log (search_params new_invention api_key) = inl e ->
  search_best_matching_patents new_invention features api_key
    similarity_threshold min_feature_matches max_patents log
  = (inr [],
     (log ++ [GoogleSearchCall (search_params new_invention api_key);
              StError ("Error in API search: " ++ str_exn e);
              StProgressNew 0; StEmptyNew; ProgressEmpty; StatusEmpty])%list).
Proof.
  intros Hfail.
  pose proof (get_patent_results_run serpapi new_invention api_key log)
    as Hget.
  rewrite Hfail in Hget.
  unfold App.search_best_matching_patents.
  rewrite (bind_run _ _ _ _ _ Hget). cbn [bind emit].
  rewrite slice_to_nil. cbn [App.analyse]. unfold ret, bind, emit.
  now rewrite <- !app_assoc.
Qed.

(** *** The text that is scored *)

Lemma scraped_nil (log : list event) : scored_what_was_scraped web log [].
Proof.
  intros pre link patent_text post H.
  now apply app_cons_not_nil in H.
Qed.

Lemma scraped_cons (log : list event) (e : event) (evs : list event) :
  is_scored e = false ->
  scored_what_was_scraped web (log ++ [e]) evs ->
  scored_what_was_scraped web log (e :: evs).
Proof.
  intros He HP pre link patent_text post Heq.
  destruct pre as [|a pre0]; cbn [app] in Heq; injection Heq as Ha Heq;
    subst e.
  - discriminate.
  - apply HP in Heq as (pre' & -> & Hs). exists (a :: pre').
    split; [reflexivity|]. rewrite <- !app_assoc in Hs. exact Hs.
Qed.

Lemma scraped_prefix (before : list event) :
  forall (log evs : list event),
    forallb (fun e => negb (is_scored e)) before = true ->
    scored_what_was_scraped web (log ++ before) evs ->
    scored_what_was_scraped web log (before ++ evs).
Proof.
  induction before as [|e before IH]; intros log evs Hb HP.
  - now rewrite app_nil_r in HP.
  - cbn [forallb] in Hb. apply andb_true_iff in Hb as [He Hb].
    apply negb_true_iff in He. cbn [app]. apply scraped_cons; [exact He|].
    apply IH; [exact Hb|]. now rewrite <- app_assoc.
Qed.

Lemma scraped_step (log : list event) (link patent_text : string)
      (evs : list event) :
  scrape_patent_details link log
  = (inr patent_text, (log ++ [RequestsGet link user_agent])%list) ->
  scored_what_was_scraped
    web ((log ++ [RequestsGet link user_agent])
           ++ [Scored link patent_text]) evs ->
  scored_what_was_scraped
    web log
    (RequestsGet link user_agent :: Scored link patent_text :: evs).
Proof.
  intros Hscrape HP pre l t post Heq.
  destruct pre as [|a [|b pre0]]; cbn [app] in Heq.
  - discriminate.
  - injection Heq as Ha Hl Ht Hpost. subst a l t post. exists [].
    split; [reflexivity|]. now rewrite app_nil_r.
  - injection Heq as Ha Hb Heq. subst a b.
    apply HP in Heq as (pre' & -> & Hs).
    exists (RequestsGet link user_agent :: Scored link patent_text :: pre').
    split; [reflexivity|]. rewrite <- !app_assoc in Hs. exact Hs.
Qed.

Lemma app_eq_scored (tail : list event) (link patent_text : string) :
  forallb (fun e => negb (is_scored e)) tail = true ->
  forall pre evs post,
    (evs ++ tail = pre ++ Scored link patent_text :: post)%list ->
    exists post', evs = (pre ++ Scored link patent_text :: post')%list.
Proof.
  intros Ht. induction pre as [|a pre IH]; intros evs post Heq.
  - destruct evs as [|e evs]; cbn [app] in Heq.
    + subst tail. discriminate.
    + injection Heq as He _. subst e. now exists evs.
  - destruct evs as [|e evs]; cbn [app] in Heq.
    + exfalso. subst tail. rewrite forallb_forall in Ht.
      specialize (Ht (Scored link patent_text)).
      assert (Hin : In (Scored link patent_text)
                       (a :: pre ++ Scored link patent_text :: post)%list)
        by (right; apply in_elt).
      specialize (Ht Hin). discriminate.
    + injection Heq as He Heq. subst e. apply IH in Heq as [post' ->].
      now exists post'.
Qed.

Lemma scraped_tail (log evs tail : list event) :
  forallb (fun e => negb (is_scored e)) tail = true ->
  scored_what_was_scraped web log evs ->
  scored_what_was_scraped web log (evs ++ tail).
Proof.
  intros Ht HP pre link patent_text post Heq.
  apply (app_eq_scored tail link patent_text Ht) in Heq as [post' Heq].
  now apply HP in Heq.
Qed.

(** The loop scores what it scraped. *)
Lemma analyse_scraped (features : list string)
      (similarity_threshold min_feature_matches max_patents n : Z)
      (rest : list patent) :
  forall (i : Z) (best_patents : list record) (log : list event),
  exists extra evs,
    analyse features similarity_threshold min_feature_matches max_patents
            n i rest best_patents log
    = (inr (best_patents ++ extra)%list, (log ++ evs)%list)
    /\ scored_what_was_scraped web log evs.
Proof.
  induction rest as [|p rest IH]; intros i best_patents log.
  - exists [], []. cbn [App.analyse]. unfold ret. rewrite !app_nil_r.
    split; [reflexivity | apply scraped_nil].
  - cbn [App.analyse]. cbn [bind emit].
    destruct (truthy (get_default "link" "" p)) eqn:Hlink; cbn [negb].
    + destruct (scrape_patent_details_run
                  web (get_default "link" "" p)
                  ((log ++ [StatusText
                              ("Analyzing patent " ++ str_of_Z (i + 1) ++ "/"
                               ++ str_of_Z (Z.min n max_patents) ++ "...")])
                     ++ [ProgressValue (i + 1) (Z.min n max_patents)])%list)
        as [patent_text Hscrape].
      rewrite (bind_run _ _ _ _ _ Hscrape). cbn [bind emit].
      destruct (len (compare_features features patent_text
                                      similarity_threshold)
                >=? min_feature_matches)%Z eqn:Hlen.
      * edestruct IH as (extra & evs & Hrun & HP).
        rewrite Hrun. eexists (_ :: extra), (_ :: _ :: _ :: _ :: evs).
        split; [rewrite <- !app_assoc; reflexivity|].
        apply scraped_cons; [reflexivity|].
        apply scraped_cons; [reflexivity|].
        apply scraped_step; [exact Hscrape | exact HP].
      * edestruct IH as (extra & evs & Hrun & HP).
        rewrite Hrun. exists extra. eexists (_ :: _ :: _ :: _ :: evs).
        split; [rewrite <- !app_assoc; reflexivity|].
        apply scraped_cons; [reflexivity|].
        apply scraped_cons; [reflexivity|].
        apply scraped_step; [exact Hscrape | exact HP].
    + edestruct IH as (extra & evs & Hrun & HP).
      rewrite Hrun. exists extra. eexists (_ :: _ :: evs).
      split; [rewrite <- !app_assoc; reflexivity|].
      apply scraped_cons; [reflexivity|].
      apply scraped_cons; [reflexivity|]. exact HP.
Qed.

(** So does a whole search. *)
Lemma search_scraped (new_invention : string) (features : list string)
      (api_key : string)
      (similarity_threshold min_feature_matches max_patents : Z)
      (log : list event) :
  exists best_patents evs,
    search_best_matching_patents new_invention features api_key
      similarity_threshold min_feature_matches max_patents log
    = (inr best_patents, (log ++ evs)%list)
    /\ scored_what_was_scraped web log evs.
Proof.
  destruct (get_patent_results_total serpapi new_invention api_key log)
    as (patents & evs0 & Hget & _ & _ & _).
  assert (Hnone : forallb (fun e => negb (is_scored e)) evs0 = true).
  { rewrite get_patent_results_run in Hget.
    destruct (serpapi log _) as [e|[rs|]]; injection Hget as _ Hlog;
      apply app_inv_head in Hlog; now subst evs0. }
  unfold App.search_best_matching_patents.
  rewrite (bind_run _ _ _ _ _ Hget). cbn [bind emit].
  edestruct (analyse_scraped features similarity_threshold
                             min_feature_matches max_patents
                             (Z.of_nat (List.length patents))
                             (slice_to max_patents patents) 0%Z [])
    as (extra & evs & Hrun & HP).
  rewrite (bind_run _ _ _ _ _ Hrun). cbn [bind emit ret app].
  exists extra.
  exists (evs0 ++ StProgressNew 0 :: StEmptyNew
               :: evs ++ [ProgressEmpty; StatusEmpty])%list.
  split; [rewrite <- !app_assoc; reflexivity|].
  apply scraped_prefix; [exact Hnone|].
  apply scraped_cons; [reflexivity|].
  apply scraped_cons; [reflexivity|].
  apply scraped_tail; [reflexivity | exact HP].
Qed.

(** X8.  With [max_patents] not negative, the records a search returns are
    exactly the fetched documents whose mapping has at least
    [min_feature_matches] entries, in the order in which they were
    processed.  The mapping of a document is the one [compare_features]
    gives for the text [scrape_patent_details] returned for its link:
    each scored text is preceded by the fetch of its link, and is what
    the scraper returned at that point. *)
Theorem search_returns_exactly_the_documents_with_enough_matches
        (new_invention : string) (features : list string) (api_key : string)
        (similarity_threshold min_feature_matches max_patents : Z)
        (log : list event) :
  (0 <= max_patents)%Z ->
  exists best_patents evs,
    search_best_matching_patents new_invention features api_key
      similarity_threshold min_feature_matches max_patents log
    = (inr best_patents, (log ++ evs)%list)
    /\ fetched evs = map fst (scored_texts evs)
    /\ map (fun r : record => let '(_, link, matches) := r in
                              (link, matches))
           best_patents
       = map (fun lt => (fst lt,
                         compare_features features (snd lt)
                                          similarity_threshold))
             (filter (fun lt =>
                        (len (compare_features features (snd lt)
                                               similarity_threshold)
                         >=? min_feature_matches)%Z)
                     (scored_texts evs))
    /\ (forall pre link patent_text post,
           evs = (pre ++ Scored link patent_text :: post)%list ->
           exists pre',
             pre = (pre' ++ [RequestsGet link
                               [("User-Agent", "Mozilla/5.0")]])%list
             /\ scrape_patent_details link (log ++ pre')%list
                = (inr patent_text, (log ++ pre)%list)).
Proof.
  intros _.
  destruct (search_results new_invention features api_key
                           similarity_threshold min_feature_matches
                           max_patents log)
    as (patents & log1 & best_patents & evs & _ & Hrun & Hs & Hf & Hres).
  destruct (search_scraped new_invention features api_key
                           similarity_threshold min_feature_matches
                           max_patents log)
    as (best_patents' & evs' & Hrun' & HP).
  rewrite Hrun in Hrun'. injection Hrun' as _ Hevs.
  apply app_inv_head in Hevs. subst evs'.
  exists best_patents, evs. split; [exact Hrun|].
  split; [now rewrite Hs, Hf|]. split; [|exact HP].
  rewrite <- Hres. apply map_ext. now intros [[title link] matches].
Qed.

(** X9.  With [max_patents] not negative, a search returns at most as
    many records as it fetched documents, and fetches at most
    [max_patents] documents. *)
Theorem search_result_bounds
        (new_invention : string) (features : list string) (api_key : string)
        (similarity_threshold min_feature_matches max_patents : Z)
        (log : list event) :
  (0 <= max_patents)%Z ->
  exists best_patents evs,
    search_best_matching_patents new_invention features api_key
      similarity_threshold min_feature_matches max_patents log
    = (inr best_patents, (log ++ evs)%list)
    /\ List.length best_patents <= List.length (fetched evs)
    /\ (Z.of_nat (List.length (fetched evs)) <= max_patents)%Z.
Proof.
  intros HM.
  destruct (search_results new_invention features api_key
                           similarity_threshold min_feature_matches
                           max_patents log)
    as (patents & log1 & best_patents & evs & _ & Hrun & Hs & Hf & Hres).
  exists best_patents, evs. split; [exact Hrun|]. split.
  - apply (f_equal (@List.length _)) in Hres. rewrite !length_map in Hres.
    rewrite Hres, Hf, <- Hs, length_map. apply filter_length_le.
  - rewrite Hf. unfold linked.
    etransitivity; [apply inj_le, filter_length_le|].
    rewrite length_map, slice_to_nonneg, length_firstn by exact HM. lia.
Qed.

(** X10.  With [max_patents] not negative, the division that gives the
    progress bar its value never divides by zero, and every value is a
    fraction above 0 and at most 1. *)
Theorem progress_is_a_fraction
        (new_invention : string) (features : list string) (api_key : string)
        (similarity_threshold min_feature_matches max_patents : Z)
        (log : list event) :
  (0 <= max_patents)%Z ->
  exists best_patents evs,
    search_best_matching_patents new_invention features api_key
      similarity_threshold min_feature_matches max_patents log
    = (inr best_patents, (log ++ evs)%list)
    /\ Forall (fun e => match e with
                        | ProgressValue num den =>
                            den <> 0%Z /\ (0 < num <= den)%Z
                        | _ => True
                        end) evs.
Proof.
  intros HM.
  destruct (search_progress_in_range partial_ratio serpapi web
              new_invention features api_key similarity_threshold
              min_feature_matches max_patents log HM)
    as (best_patents & evs & Hrun & Hp).
  exists best_patents, evs. split; [exact Hrun|].
  clear Hrun. induction evs as [|e evs IH]; constructor.
  - destruct e; try exact I.
    cbn in Hp. inversion Hp as [|? ? Hnd _]; subst. cbn in Hnd. lia.
  - apply IH. destruct e; try exact Hp.
    cbn in Hp. now inversion Hp.
Qed.

(** *** The submit handler *)

Lemma parse_features_empty_text : parse_features "" = [].
Proof. reflexivity. Qed.

Lemma network_calls_report (min_feature_matches : Z)
      (best_patents : list record) :
  network_calls (report min_feature_matches best_patents) = [].
Proof. destruct best_patents; reflexivity. Qed.

(** A run of the handler on a form that passes the checks. *)
Lemma on_submit_accepted_run (f : form) (log : list event) :
  submit_button f = true ->
  api_key f <> "" ->
  new_invention f <> "" ->
  parse_features (features_text f) <> [] ->
  exists best_patents evs0 evs,
    search_best_matching_patents
      (new_invention f) (parse_features (features_text f)) (api_key f)
      (similarity_threshold f) (min_feature_matches f) (max_patents f)
      (log ++ [StSpinner "Searching for matching patents..."])%list
    = (inr best_patents,
       (((log ++ [StSpinner "Searching for matching patents..."]) ++ evs0)
          ++ evs)%list)
    /\ on_submit f log
       = (inr tt,
          ((((log ++ [StSpinner "Searching for matching patents..."])
               ++ evs0) ++ evs)
             ++ report (min_feature_matches f) best_patents)%list)
    /\ network_calls evs0
       = [GoogleSearchCall (search_params (new_invention f) (api_key f))]
    /\ (exists links,
           network_calls evs
           = map (fun link => RequestsGet link user_agent) links)
    /\ Forall (fun r : record => NoDup (keys (snd r))) best_patents.
Proof.
  intros Hsubmit Hkey Hinv Hfeatures.
  assert (Htext : features_text f <> "").
  { intros H. apply Hfeatures. rewrite H. apply parse_features_empty_text. }
  apply truthy_spec in Hkey, Hinv, Htext.
  destruct (get_patent_results_total
              serpapi (new_invention f) (api_key f)
              (log ++ [StSpinner "Searching for matching patents..."])%list)
    as (patents & evs0 & Hget & _ & _ & Hn0).
  destruct (search_run partial_ratio serpapi web (new_invention f)
                       (parse_features (features_text f)) (api_key f)
                       (similarity_threshold f) (min_feature_matches f)
                       (max_patents f) _ _ patents Hget)
    as (best_patents & evs & Hrun & _ & _ & Hn & _ & Hall).
  exists best_patents, evs0, evs.
  split; [exact Hrun|]. split; [|split; [exact Hn0|split; [eauto|]]].
  - unfold App.on_submit. rewrite Hsubmit, Hkey, Hinv, Htext. cbn [negb].
    destruct (parse_features (features_text f)) as [|x l] eqn:Hparse;
      [congruence|].
    cbn [bind emit]. rewrite (bind_run _ _ _ _ _ Hrun). cbn [bind emit].
    unfold report. destruct best_patents; unfold bind, emit;
      now rewrite <- !app_assoc.
  - eapply Forall_impl; [|exact Hall].
    intros r [_ [patent_text ->]]. apply compare_features_NoDup.
Qed.

(** X11.  On a form that passes the checks the handler runs one search
    with the description as query and the parsed features, then shows the
    header and either the no-match warning or the count of the matches,
    the tabs and a download button whose data is the JSON export of the
    results; that export can always be parsed back. *)
Theorem on_submit_searches_and_reports (f : form) (log : list event) :
  submit_button f = true ->
  api_key f <> "" ->
  new_invention f <> "" ->
  parse_features (features_text f) <> [] ->
  exists best_patents log1,
    search_best_matching_patents
      (new_invention f) (parse_features (features_text f)) (api_key f)
      (similarity_threshold f) (min_feature_matches f) (max_patents f)
      (log ++ [StSpinner "Searching for matching patents..."])%list
    = (inr best_patents, log1)
    /\ on_submit f log
       = (inr tt,
          (log1
           ++ StHeader "Search Results"
           :: match best_patents with
              | [] =>
                  [StWarning "No patents found with enough feature matches. Try adjusting your search parameters."]
              | _ :: _ =>
                  [StSuccess
                     ("Found "
                      ++ str_of_Z (Z.of_nat (List.length best_patents))
                      ++ " patents matching at least "
                      ++ str_of_Z (min_feature_matches f)
                      ++ " features.")%string;
                   StTabs best_patents;
                   StDownloadButton "Download Results as JSON"
                                    (result_json best_patents)
                                    "patent_matches.json"
                                    "application/json"]
              end)%list)
    /\ loads (result_json best_patents) = Some (export_value best_patents).
Proof.
  intros Hsubmit Hkey Hinv Hfeatures.
  destruct (on_submit_accepted_run f log Hsubmit Hkey Hinv Hfeatures)
    as (best_patents & evs0 & evs & Hrun & Hsub & _ & _ & Hnd).
  exists best_patents. eexists. split; [exact Hrun|]. split; [exact Hsub|].
  now apply loads_dumps, well_formed_export.
Qed.

(** X12.  Whatever the form and whatever the provider and the web do, the
    handler ends without an exception.  Without a submission it does
    nothing; otherwise it either contacts nothing, or contacts the
    provider exactly once, with the description as query, before any
    fetch. *)
Theorem on_submit_ends_normally (f : form) (log : list event) :
  exists evs,
    on_submit f log = (inr tt, (log ++ evs)%list)
    /\ (submit_button f = false -> evs = [])
    /\ (network_calls evs = []
        \/ exists links,
            network_calls evs
            = GoogleSearchCall
                [("q", (new_invention f ++ " site:patents.google.com")%string);
                 ("location", "United States");
                 ("api_key", api_key f)]
              :: map (fun link =>
                        RequestsGet link [("User-Agent", "Mozilla/5.0")])
                     links).
Proof.
  destruct (submit_button f) eqn:Hsubmit.
  2:{ exists []. unfold App.on_submit. rewrite Hsubmit. unfold ret.
      rewrite app_nil_r. repeat split. now left. }
  assert (Hreject : forall msg,
    on_submit f log = (inr tt, (log ++ [StError msg])%list) ->
    exists evs,
      on_submit f log = (inr tt, (log ++ evs)%list)
      /\ (true = false -> evs = [])
      /\ (network_calls evs = []
          \/ exists links,
              network_calls evs
              = GoogleSearchCall (search_params (new_invention f) (api_key f))
                :: map (fun link => RequestsGet link user_agent) links)).
  { intros msg H. exists [StError msg]. split; [exact H|].
    split; [discriminate | now left]. }
  destruct (string_dec (api_key f) "") as [Hkey|Hkey].
  { eapply Hreject. unfold App.on_submit. rewrite Hsubmit, Hkey. reflexivity. }
  destruct (string_dec (new_invention f) "") as [Hinv|Hinv].
  { eapply Hreject. unfold App.on_submit.
    apply truthy_spec in Hkey. rewrite Hsubmit, Hkey, Hinv. reflexivity. }
  destruct (parse_features (features_text f)) as [|x l] eqn:Hparse.
  { apply truthy_spec in Hkey, Hinv.
    destruct (truthy (features_text f)) eqn:Htext.
    - eapply Hreject. unfold App.on_submit.
      rewrite Hsubmit, Hkey, Hinv, Htext, Hparse. reflexivity.
    - eapply Hreject. unfold App.on_submit.
      rewrite Hsubmit, Hkey, Hinv, Htext. reflexivity. }
  assert (Hfeatures : parse_features (features_text f) <> [])
    by (rewrite Hparse; discriminate).
  destruct (on_submit_accepted_run f log Hsubmit Hkey Hinv Hfeatures)
    as (best_patents & evs0 & evs & _ & Hsub & Hn0 & [links Hn] & _).
  exists ([StSpinner "Searching for matching patents..."] ++ evs0 ++ evs
          ++ report (min_feature_matches f) best_patents)%list.
  split; [rewrite Hsub; now rewrite <- !app_assoc|].
  split; [discriminate|]. right. exists links.
  rewrite !network_calls_app, Hn0, Hn, network_calls_report, app_nil_r.
  reflexivity.
Qed.

(** X13.  Every feature the handler passes to the search is a line of the
    features text with the white space around it removed: it is not
    empty, trimming it again changes nothing, and it holds no line
    break. *)
Theorem parse_features_gives_trimmed_lines (features_text feature : string) :
  In feature (parse_features features_text) ->
  feature <> ""
  /\ strip feature = feature
  /\ contains nl feature = false.
Proof.
  unfold parse_features. intros Hin.
  apply in_map_iff in Hin as (line & <- & Hline).
  apply filter_In in Hline as [Hline Htruthy].
  split; [now apply truthy_spec|]. split; [apply strip_idem|].
  apply contains_strip.
  pose proof (split_pieces nl ltac:(discriminate) (strip features_text))
    as Hpieces.
  rewrite Forall_forall in Hpieces. now apply Hpieces.
Qed.

(** *** Scraping *)

(** X14.  The text [scrape_patent_details] returns is never blank: there is
    always something other than white space in it.  When the page has
    none of the three sections, or only white space in them, the text is
    the fixed sentence. *)
Theorem scrape_patent_details_is_never_blank (url : string)
        (log : list event) :
  exists text,
    scrape_patent_details url log
    = (inr text, (log ++ [RequestsGet url [("User-Agent", "Mozilla/5.0")]])%list)
    /\ strip text <> ""
    /\ forall soup,
        web log url [("User-Agent", "Mozilla/5.0")] = inr soup ->
        match meta_dc_description soup with
        | None => True
        | Some None => False
        | Some (Some content) => strip content = ""
        end ->
        match div_description soup with
        | None => True
        | Some text => strip text = ""
        end ->
        match section_claims soup with
        | None => True
        | Some text => strip text = ""
        end ->
        text = "No detailed description available.".
Proof.
  unfold App.scrape_patent_details, try_except, bind, requests_get_soup,
    ret, raise. fold user_agent.
  destruct (web log url user_agent) as [e|soup].
  { eexists. split; [reflexivity|]. split; [|discriminate].
    now apply strip_not_blank. }
  assert (Hsentinel : strip no_description <> "")
    by now apply strip_not_blank.
  assert (Hblank : forall abstract,
    strip abstract = "" ->
    match div_description soup with
    | None => True
    | Some text => strip text = ""
    end ->
    match section_claims soup with
    | None => True
    | Some text => strip text = ""
    end ->
    truthy (strip (abstract ++ nl ++ nl
                   ++ match div_description soup with
                      | Some text => strip text
                      | None => ""
                      end
                   ++ nl ++ nl
                   ++ match section_claims soup with
                      | Some text => strip text
                      | None => ""
                      end)) = false).
  { intros abstract Ha Hd Hc.
    assert (Hd' : match div_description soup with
                  | Some text => strip text
                  | None => ""
                  end = "") by (destruct (div_description soup); trivial).
    assert (Hc' : match section_claims soup with
                  | Some text => strip text
                  | None => ""
                  end = "") by (destruct (section_claims soup); trivial).
    rewrite Hd', Hc'. apply truthy_false, strip_blank.
    apply strip_blank in Ha. rewrite all_space_app, Ha. reflexivity. }
  destruct (meta_dc_description soup) as [[content|]|] eqn:Hmeta.
  - eexists. split; [reflexivity|]. split.
    + destruct (truthy (strip _)) eqn:E;
        [now apply truthy_spec | exact Hsentinel].
    + intros soup' [= <-] Ha Hd Hc. rewrite Hmeta in Ha.
      now rewrite (Hblank content Ha Hd Hc).
  - eexists. split; [reflexivity|]. split.
    + now apply strip_not_blank.
    + intros soup' [= <-] Ha. now rewrite Hmeta in Ha.
  - eexists. split; [reflexivity|]. split.
    + destruct (truthy (strip _)) eqn:E;
        [now apply truthy_spec | exact Hsentinel].
    + intros soup' [= <-] _ Hd Hc.
      now rewrite (Hblank "" eq_refl Hd Hc).
Qed.

End WithWorld.

(** *** The theorems above, run on an example *)

Example search_without_provider_run :
  failing_serpapi [] (search_params "a widget" "key")
  = inl (Exception "Connection refused")
  /\ fetched
       (snd (search_best_matching_patents
               contains_ratio failing_serpapi sample_web
               "a widget" ["red widget"] "key" 40 1 10 []))
     = [].
Proof.
  split; [reflexivity|].
  rewrite (search_without_provider
             contains_ratio failing_serpapi sample_web
             "a widget" ["red widget"] "key" 40 1 10 []
             (Exception "Connection refused") eq_refl).
  reflexivity.
Defined.

Example search_network_calls_run :
  (0 <= 2)%Z
  /\ exists best_patents evs,
      search_best_matching_patents
        contains_ratio sample_serpapi sample_web
        "a widget" ["red widget"] "key" 40 1 2 []
      = (inr best_patents, evs)
      /\ network_calls evs
         = [GoogleSearchCall (search_params "a widget" "key");
            RequestsGet "http://a" user_agent].
Proof.
  split; [lia|].
  destruct (search_network_calls
              contains_ratio sample_serpapi sample_web
              "a widget" ["red widget"] "key" 40 1 2 [])
    as (patents & log1 & best_patents & evs & Hget & Hrun & Hn); [lia|].
  exists best_patents, evs. split; [exact Hrun|].
  injection Hget as <- _. exact Hn.
Defined.

Example search_returns_exactly_the_documents_with_enough_matches_run :
  (0 <= 2)%Z
  /\ exists best_patents evs,
      search_best_matching_patents
        contains_ratio sample_serpapi sample_web
        "a widget" ["red widget"] "key" 40 1 2 []
      = (inr best_patents, evs)
      /\ fetched evs = map fst (scored_texts evs).
Proof.
  split; [lia|].
  destruct (search_returns_exactly_the_documents_with_enough_matches
              contains_ratio sample_serpapi sample_web
              "a widget" ["red widget"] "key" 40 1 2 [])
    as (best_patents & evs & Hrun & Hf & _); [lia|].
  exists best_patents, evs. split; [exact Hrun | exact Hf].
Defined.

Example search_result_bounds_run :
  (0 <= 2)%Z
  /\ exists best_patents evs,
      search_best_matching_patents
        contains_ratio sample_serpapi sample_web
        "a widget" ["red widget"] "key" 40 1 2 []
      = (inr best_patents, evs)
      /\ List.length best_patents <= List.length (fetched evs).
Proof.
  split; [lia|].
  destruct (search_result_bounds
              contains_ratio sample_serpapi sample_web
              "a widget" ["red widget"] "key" 40 1 2 [])
    as (best_patents & evs & Hrun & Hle & _); [lia|].
  exists best_patents, evs. split; [exact Hrun | exact Hle].
Defined.

Example progress_is_a_fraction_run :
  (0 <= 2)%Z
  /\ exists best_patents evs,
      search_best_matching_patents
        contains_ratio sample_serpapi sample_web
        "a widget" ["red widget"] "key" 40 1 2 []
      = (inr best_patents, evs).
Proof.
  split; [lia|].
  destruct (progress_is_a_fraction
              contains_ratio sample_serpapi sample_web
              "a widget" ["red widget"] "key" 40 1 2 [])
    as (best_patents & evs & Hrun & _); [lia|].
  exists best_patents, evs. exact Hrun.
Defined.

Example on_submit_searches_and_reports_run :
  submit_button sample_form = true
  /\ api_key sample_form <> ""
  /\ new_invention sample_form <> ""
  /\ parse_features (features_text sample_form) = ["red widget"; "blue gear"]
  /\ exists best_patents,
      loads (result_json best_patents) = Some (export_value best_patents).
Proof.
  split; [reflexivity|]. split; [discriminate|]. split; [discriminate|].
  split; [reflexivity|].
  destruct (on_submit_searches_and_reports
              contains_ratio sample_serpapi sample_web sample_form [])
    as (best_patents & log1 & _ & _ & Hloads);
    [reflexivity | discriminate | discriminate | discriminate |].
  exists best_patents. exact Hloads.
Defined.

Example parse_features_gives_trimmed_lines_run :
  In "blue gear" (parse_features (features_text sample_form))
  /\ strip "blue gear" = "blue gear".
Proof.
  split; [cbn; auto|].
  apply (parse_features_gives_trimmed_lines
           (features_text sample_form) "blue gear").
  cbn. auto.
Defined.

End AppMore.


(** ** More on the JSON export *)

Module ExportMore.
Import PyStr PyDict PyJson Matcher App.
Import PyStrFacts PyJsonFacts.

Lemma all_chars_append (p : ascii -> bool) (a b : string) :
  all_chars p (a ++ b) = all_chars p a && all_chars p b.
Proof.
  induction a as [|c a IH]; [reflexivity|]. cbn.
  now rewrite IH, andb_assoc.
Qed.

Lemma escape_char_plain (c : ascii) :
  all_chars is_plain_ascii (escape_char c) = true.
Proof. destruct c as [[] [] [] [] [] [] [] []]; reflexivity. Qed.

Lemma encode_string_plain (s : string) :
  all_chars is_plain_ascii (encode_string s) = true.
Proof.
  unfold encode_string. cbn [all_chars]. rewrite all_chars_append.
  change (is_plain_ascii dquote) with true. cbn [andb].
  rewrite andb_true_r.
  induction s as [|c s IH]; [reflexivity|].
  cbn [escape]. now rewrite all_chars_append, escape_char_plain, IH.
Qed.

Lemma string_of_uint_plain (u : Decimal.uint) :
  all_chars is_plain_ascii (NilEmpty.string_of_uint u) = true.
Proof. induction u; cbn; trivial. Qed.

Lemma nilzero_string_of_uint_plain (u : Decimal.uint) :
  all_chars is_plain_ascii (NilZero.string_of_uint u) = true.
Proof.
  destruct u; [reflexivity | ..];
    match goal with
    | |- all_chars _ (NilZero.string_of_uint ?d) = true =>
        exact (string_of_uint_plain d)
    end.
Qed.

Lemma str_of_Z_plain (n : Z) :
  all_chars is_plain_ascii (PyJson.str_of_Z n) = true.
Proof.
  unfold PyJson.str_of_Z.
  destruct (Z.to_int n) as [u|u]; cbn [NilZero.string_of_int all_chars].
  - apply nilzero_string_of_uint_plain.
  - now rewrite nilzero_string_of_uint_plain.
Qed.

Lemma newline_indent_plain (level : nat) :
  all_chars is_plain_ascii (newline_indent level) = true.
Proof.
  unfold newline_indent. cbn [all_chars].
  change (is_plain_ascii newline) with true. cbn [andb].
  induction level as [|level IH]; [reflexivity | exact IH].
Qed.

Lemma more_items_plain (level : nat) (xs : list pyval) :
  Forall (fun x => forall level,
              all_chars is_plain_ascii (encode level x) = true) xs ->
  all_chars is_plain_ascii (more_items (encode (S level)) level xs) = true.
Proof.
  induction 1 as [|y l Hy Hl IH]; cbn [more_items].
  - now rewrite all_chars_append, newline_indent_plain.
  - rewrite !all_chars_append, newline_indent_plain, Hy, IH. reflexivity.
Qed.

Lemma more_members_plain (level : nat) (kvs : list (string * pyval)) :
  Forall (fun kv => forall level,
              all_chars is_plain_ascii (encode level (snd kv)) = true) kvs ->
  all_chars is_plain_ascii (more_members (encode (S level)) level kvs) = true.
Proof.
  induction 1 as [|[k y] l Hy Hl IH]; cbn [more_members].
  - now rewrite all_chars_append, newline_indent_plain.
  - cbn [snd] in Hy.
    rewrite !all_chars_append, newline_indent_plain, encode_string_plain,
      Hy, IH. reflexivity.
Qed.

Lemma encode_plain (v : pyval) :
  forall level, all_chars is_plain_ascii (encode level v) = true.
Proof.
  induction v as [|b|n|s|items IH|items IH] using pyval_induction;
    intros level.
  - reflexivity.
  - destruct b; reflexivity.
  - apply str_of_Z_plain.
  - apply encode_string_plain.
  - destruct items as [|x xs]; [reflexivity|].
    inversion IH as [|? ? Hx Hxs]; subst. cbn [encode].
    rewrite !all_chars_append, newline_indent_plain, Hx,
      (more_items_plain level xs Hxs). reflexivity.
  - destruct items as [|[k x] kvs]; [reflexivity|].
    inversion IH as [|? ? Hx Hxs]; subst. cbn [snd] in Hx. cbn [encode].
    rewrite !all_chars_append, newline_indent_plain, encode_string_plain,
      Hx, (more_members_plain level kvs Hxs). reflexivity.
Qed.

(** X15.  The exported JSON text is plain ASCII, whatever the titles,
    links, features and sentences contain: every character is printable
    ASCII or a line break. *)
Theorem result_json_is_plain_ascii (best_patents : list record) :
  all_chars is_plain_ascii (result_json best_patents) = true.
Proof. apply encode_plain. Qed.

End ExportMore.
